(** * Venice client scripts: retry wrapper, stream decoders, conversation
      state and image-response normalisation.

    Shallow embedding of the JavaScript found in the repository:
    - the Venice API guide (callVeniceAPI, streamChatCompletion,
      generateResponse, VeniceConversation),
    - the card application script (generateStylizedImage, data[0] first),
    - script.js (generateStylizedImage, url first).

    Asynchronous functions are modelled as functions of the outcomes the
    environment supplies (the result of each fetch, the chunks a reader
    yields); everything observable they do (callbacks, console output,
    timers, requests) is recorded in an event trace. *)

From Stdlib Require Import ZArith QArith Lia Ascii String.
From stdpp Require Import base list strings.

Set Warnings "-register-all".

Local Open Scope string_scope.
Local Open Scope Z_scope.
Local Open Scope list_scope.

(** ** JavaScript values and the runtime operations the scripts use *)

Module JS.

(** Values as produced by JSON.parse, plus undefined.  Numbers are the
    finite doubles, kept as the rationals they denote. *)
Inductive value : Type :=
| VUndefined
| VNull
| VBool (b : bool)
| VNum (q : Q)
| VStr (s : string)
| VArr (elems : list value)
| VObj (props : list (string * value)).

(** Errors a script can be rejected with. *)
Inductive error : Type :=
| Error (message : list value)  (* new Error(`...`): the message is the
                                   pieces of the template, in order *)
| TypeError                      (* property read on undefined or null *)
| SyntaxError                    (* JSON.parse / response.json() on bad text *)
| FetchFailed.                   (* fetch rejected: no response at all *)

Inductive completion (A : Type) : Type :=
| Normal (a : A)
| Throw (e : error).
Arguments Normal {A} a.
Arguments Throw {A} e.

(** Sequencing of steps that may throw: [x ← m; k]. *)
#[global] Instance completion_ret : MRet completion := @Normal.
#[global] Instance completion_bind : MBind completion :=
  fun A B k m => match m with
                 | Normal a => k a
                 | Throw e => Throw e
                 end.

(** ToBoolean. *)
Definition truthy (v : value) : bool :=
  match v with
  | VUndefined | VNull => false
  | VBool b => b
  | VNum q => negb (Qeq_bool q 0)
  | VStr s => negb (String.eqb s "")
  | VArr _ | VObj _ => true
  end.

Fixpoint own (props : list (string * value)) (name : string) : value :=
  match props with
  | [] => VUndefined
  | (k, v) :: rest => if String.eqb k name then v else own rest name
  end.

(** [o.name] for the property names the scripts read (choices, delta,
    content, message, data, url, b64_json, image, images, error): none of
    them is inherited from a prototype, so primitives and arrays answer
    undefined. *)
Definition get (o : value) (name : string) : completion value :=
  match o with
  | VUndefined | VNull => Throw TypeError
  | VObj props => Normal (own props name)
  | VBool _ | VNum _ | VStr _ | VArr _ => Normal VUndefined
  end.

(** [o[0]]. *)
Definition get0 (o : value) : completion value :=
  match o with
  | VUndefined | VNull => Throw TypeError
  | VArr [] => Normal VUndefined
  | VArr (x :: _) => Normal x
  | VStr EmptyString => Normal VUndefined
  | VStr (String c _) => Normal (VStr (String c EmptyString))
  | VObj props => Normal (own props "0")
  | VBool _ | VNum _ => Normal VUndefined
  end.

(** [o?.name]. *)
Definition get_opt (o : value) (name : string) : completion value :=
  match o with
  | VUndefined | VNull => Normal VUndefined
  | _ => get o name
  end.

(** [a || b] on values. *)
Definition or_else (a b : value) : value := if truthy a then a else b.

(** Array.prototype.slice(start) with an integer start. *)
Definition slice {A} (start : Z) (l : list A) : list A :=
  let len := Z.of_nat (length l) in
  let k := if start <? 0 then Z.max (len + start) 0 else Z.min start len in
  drop (Z.to_nat k) l.

(** *** Strings *)

Definition newline : ascii := Ascii.ascii_of_nat 10.
Definition comma : ascii := ","%char.

(** WhiteSpace and LineTerminator code units below 256. *)
Definition is_space (c : ascii) : bool :=
  let n := Ascii.nat_of_ascii c in
  (Nat.eqb n 9 || Nat.eqb n 10 || Nat.eqb n 11 || Nat.eqb n 12
   || Nat.eqb n 13 || Nat.eqb n 32 || Nat.eqb n 160)%bool.

Fixpoint trimStart (s : string) : string :=
  match s with
  | String c s' => if is_space c then trimStart s' else s
  | EmptyString => EmptyString
  end.

Fixpoint trimEnd (s : string) : string :=
  match s with
  | EmptyString => EmptyString
  | String c s' =>
      match trimEnd s' with
      | EmptyString => if is_space c then EmptyString else String c EmptyString
      | t => String c t
      end
  end.

Definition trim (s : string) : string := trimEnd (trimStart s).

Fixpoint startsWith (p s : string) : bool :=
  match p, s with
  | EmptyString, _ => true
  | String a p', String b s' => Ascii.eqb a b && startsWith p' s'
  | String _ _, EmptyString => false
  end.

(** [s.slice(n)] for 0 <= n. *)
Fixpoint str_slice (n : nat) (s : string) : string :=
  match n, s with
  | O, _ => s
  | S n', String _ s' => str_slice n' s'
  | S _, EmptyString => EmptyString
  end.

(** [s.includes(p)]. *)
Fixpoint includes (p s : string) : bool :=
  startsWith p s ||
  match s with
  | EmptyString => false
  | String _ s' => includes p s'
  end.

(** [s.replace(p, '')]: the first occurrence of [p] is removed. *)
Fixpoint remove_first (p s : string) : string :=
  if startsWith p s then str_slice (String.length p) s
  else match s with
       | EmptyString => EmptyString
       | String c s' => String c (remove_first p s')
       end.

(** [s.split(sep)] for a one-character separator: never empty. *)
Fixpoint split (sep : ascii) (s : string) : list string :=
  match s with
  | EmptyString => [EmptyString]
  | String c s' =>
      if Ascii.eqb c sep then EmptyString :: split sep s'
      else match split sep s' with
           | [] => [String c EmptyString]
           | cur :: rest => String c cur :: rest
           end
  end.

(** [parseInt(s)] without a radix; [None] is NaN. *)
Definition digit_of (radix : Z) (c : ascii) : option Z :=
  let n := Z.of_nat (Ascii.nat_of_ascii c) in
  let d := if (48 <=? n) && (n <=? 57) then n - 48
           else if (97 <=? n) && (n <=? 122) then n - 87
           else if (65 <=? n) && (n <=? 90) then n - 55
           else radix in
  if d <? radix then Some d else None.

Fixpoint digits (radix : Z) (acc : option Z) (s : string) : option Z :=
  match s with
  | EmptyString => acc
  | String c s' =>
      match digit_of radix c with
      | Some d => digits radix (Some (default 0 acc * radix + d)) s'
      | None => acc
      end
  end.

Definition parseInt (s : string) : option Z :=
  let s1 := trimStart s in
  let '(sign, s2) :=
    match s1 with
    | String "-" r => (-1, r)
    | String "+" r => (1, r)
    | _ => (1, s1)
    end in
  let '(radix, s3) :=
    if startsWith "0x" s2 || startsWith "0X" s2 then (16, str_slice 2 s2)
    else (10, s2) in
  Z.mul sign <$> digits radix None s3.

(** Array index read: [xs[i]], undefined out of range. *)
Definition at_index (xs : list string) (i : nat) : value :=
  match xs !! i with
  | Some s => VStr s
  | None => VUndefined
  end.

(** *** fetch *)

(** A Response as the scripts observe it: [json] is what
    [await response.json()] resolves to ([None]: it rejects), [text] what
    [await response.text()] resolves to; header names are lower case. *)
Record Response : Type := {
  status : Z;
  headers : list (string * string);
  text : string;
  json : option value
}.

Definition ok (r : Response) : bool := (200 <=? status r) && (status r <=? 299).

Fixpoint headers_get (hs : list (string * string)) (name : string) : option string :=
  match hs with
  | [] => None
  | (k, v) :: rest => if String.eqb k name then Some v else headers_get rest name
  end.

Definition response_json (r : Response) : completion value :=
  match json r with
  | Some v => Normal v
  | None => Throw SyntaxError
  end.

Inductive fetch_result : Type :=
| Rejected                      (* network-level failure *)
| Resolved (response : Response).

End JS.

Import JS.

(** ** Conversation management (VeniceConversation) *)

Record Message : Type := { role : string; content : value }.

Record VeniceConversation : Type := {
  apiKey : string;
  model : string;
  messages : list Message;
  maxHistory : Z
}.

Definition constructor (apiKey model : string) : VeniceConversation :=
  {| apiKey := apiKey; model := model; messages := []; maxHistory := 20 |}.

Definition default_model : string := "venice-uncensored".

Definition with_messages (c : VeniceConversation) (ms : list Message) : VeniceConversation :=
  {| apiKey := apiKey c; model := model c; messages := ms; maxHistory := maxHistory c |}.

(** push, then [slice(-maxHistory)] when the list got too long. *)
Definition addMessage (role : string) (content : value) (c : VeniceConversation)
  : VeniceConversation :=
  let pushed := messages c ++ [{| role := role; content := content |}] in
  if maxHistory c <? Z.of_nat (length pushed)
  then with_messages c (slice (- maxHistory c) pushed)
  else with_messages c pushed.

Definition clear (c : VeniceConversation) : VeniceConversation := with_messages c [].

Definition getHistory (c : VeniceConversation) : list Message := messages c.

Definition message_value (m : Message) : value :=
  VObj [("role", VStr (role m)); ("content", content m)].

(** What one call of [send] does: the request it issued, the conversation
    it leaves behind and how it completed. *)
Record send_run : Type := {
  sent_body : list (string * value);
  after : VeniceConversation;
  result : completion value
}.

Definition send (c : VeniceConversation) (userMessage : value)
    (options : list (string * value)) (net : fetch_result) : send_run :=
  let c1 := addMessage "user" userMessage c in
  let body := [("model", VStr (model c1));
               ("messages", VArr (map message_value (messages c1)))] ++ options in
  match net with
  | Rejected => {| sent_body := body; after := c1; result := Throw FetchFailed |}
  | Resolved response =>
      match (data ← response_json response;
             choices ← get data "choices";
             first ← get0 choices;
             message ← get first "message";
             get message "content") with
      | Throw e => {| sent_body := body; after := c1; result := Throw e |}
      | Normal assistantMessage =>
          {| sent_body := body;
             after := addMessage "assistant" assistantMessage c1;
             result := Normal assistantMessage |}
      end
  end.

(** Conversation obtained from a fresh instance by a sequence of addMessage calls. *)
Definition add_all (calls : list Message) (c : VeniceConversation) : VeniceConversation :=
  fold_left (fun acc m => addMessage (role m) (content m) acc) calls c.

(** ** Robust error handling pattern (callVeniceAPI) *)

Inductive api_event : Type :=
| FetchCall (endpoint : string) (body : value)
| ConsoleWarn (remaining : string)
| ConsoleLog (waitTime : Z)
| Wait (ms : Z).

(** How the body of the try block ends. *)
Inductive attempt_end : Type :=
| Returns (v : value)
| Continues
| Caught (e : error).

(** A run against a script of fetch outcomes: [settled] is [None] when the
    script is used up while the call is still waiting for a response. *)
Record api_run : Type := {
  trace : list api_event;
  settled : option (completion value)
}.

Definition maxRetries : Z := 3.

(** [if (remaining && parseInt(remaining) < 10) console.warn(...)]. *)
Definition rate_limit_check (response : Response) : list api_event :=
  match headers_get (headers response) "x-ratelimit-remaining-requests" with
  | Some remaining =>
      if negb (String.eqb remaining "") &&
         match parseInt remaining with Some n => n <? 10 | None => false end
      then [ConsoleWarn remaining] else []
  | None => []
  end.

(** The body of the try block at a given retry count, on the outcome of
    its fetch: the events it causes and how it ends.  [Caught e] is any
    exception raised inside the block, the two throw statements included:
    all of them reach the catch clause of the loop. *)
Definition try_body (endpoint : string) (body : value) (retryCount : Z)
    (net : fetch_result) : list api_event * attempt_end :=
  match net with
  | Rejected => ([FetchCall endpoint body], Caught FetchFailed)
  | Resolved response =>
      let seen := FetchCall endpoint body :: rate_limit_check response in
      if negb (ok response) then
        match response_json response with
        | Throw e => (seen, Caught e)
        | Normal error =>
            if status response =? 429 then
              let resetTime := headers_get (headers response) "x-ratelimit-reset-requests" in
              let waitTime := Z.min (2 ^ retryCount * 1000) 60000 in
              (seen ++ [ConsoleLog waitTime; Wait waitTime], Continues)
            else if status response =? 401 then
              (seen, Caught (Error [VStr "Invalid API key. Check your credentials."]))
            else
              match (e ← get error "error"; get e "message") with
              | Throw e => (seen, Caught e)
              | Normal m =>
                  (seen, Caught (Error [VStr "API Error ("; VNum (inject_Z (status response));
                                        VStr "): "; m]))
              end
        end
      else
        match response_json response with
        | Throw e => (seen, Caught e)
        | Normal v => (seen, Returns v)
        end
  end.

Definition before (evs : list api_event) (r : api_run) : api_run :=
  {| trace := evs ++ trace r; settled := settled r |}.

(** The while loop with its catch clause; each pass consumes the outcome
    of one fetch.  When the loop condition fails the function ends without
    a return statement. *)
Fixpoint retry_loop (endpoint : string) (body : value) (retryCount : Z)
    (responses : list fetch_result) : api_run :=
  if retryCount <? maxRetries then
    match responses with
    | [] => {| trace := []; settled := None |}
    | net :: rest =>
        match try_body endpoint body retryCount net with
        | (evs, Returns v) => {| trace := evs; settled := Some (Normal v) |}
        | (evs, Continues) => before evs (retry_loop endpoint body (retryCount + 1) rest)
        | (evs, Caught e) =>
            if retryCount =? maxRetries - 1
            then {| trace := evs; settled := Some (Throw e) |}
            else before (evs ++ [Wait (1000 * (retryCount + 1))])
                        (retry_loop endpoint body (retryCount + 1) rest)
        end
    end
  else {| trace := []; settled := Some (Normal VUndefined) |}.

Definition callVeniceAPI (endpoint : string) (body : value)
    (responses : list fetch_result) : api_run :=
  retry_loop endpoint body 0 responses.

(** Number of requests sent. *)
Fixpoint fetches (evs : list api_event) : nat :=
  match evs with
  | [] => 0
  | FetchCall _ _ :: rest => S (fetches rest)
  | _ :: rest => fetches rest
  end.

Definition attempts (r : api_run) : nat := fetches (trace r).

Fixpoint waits (evs : list api_event) : list Z :=
  match evs with
  | [] => []
  | Wait ms :: rest => ms :: waits rest
  | _ :: rest => waits rest
  end.

(** The error the caller sees for an authentication failure. *)
Definition invalid_api_key : error :=
  Error [VStr "Invalid API key. Check your credentials."].

(** Sample responses. *)
Definition error_body (msg : string) : value :=
  VObj [("error", VObj [("message", VStr msg)])].

Definition response_of (st : Z) (hs : list (string * string)) (v : value) : Response :=
  {| status := st; headers := hs; text := ""; json := Some v |}.

Definition r401 : fetch_result := Resolved (response_of 401 [] (error_body "Unauthorized")).
Definition r429 : fetch_result := Resolved (response_of 429 [] (error_body "Rate limit exceeded")).
Definition r200 : fetch_result := Resolved (response_of 200 [] (VObj [("id", VStr "ok")])).
Definition r429_reset (hint : string) : fetch_result :=
  Resolved (response_of 429 [("x-ratelimit-reset-requests", hint)]
                        (error_body "Rate limit exceeded")).

(** ** Stream decoders *)

Definition data_prefix : string := "data: ".
Definition DONE : string := "[DONE]".

Inductive stream_event : Type :=
| OnChunk (content : value)      (* onChunk(content) *)
| OnComplete                     (* onComplete() *)
| ParseError (e : error)         (* console.error('Parse error:', e) *)
| ReleaseLock.                   (* reader.releaseLock() *)

(** What generateResponse does to the page and the console. *)
Inductive page_event : Type :=
| StatusText (s : string)        (* statusBadge.textContent = s *)
| ResponseText (s : string)      (* responseDiv.textContent = s *)
| ResponseAppend (content : value) (* responseDiv.textContent += content *)
| PageParseError (e : error).

Section Decoders.

(** JSON.parse, [None] where it throws. *)
Variable JSON_parse : string -> option value.

Definition parse (data : string) : completion value :=
  match JSON_parse data with
  | Some v => Normal v
  | None => Throw SyntaxError
  end.

(** [parsed.choices[0]?.delta?.content]. *)
Definition delta_content (parsed : value) : completion value :=
  choices ← get parsed "choices";
  first ← get0 choices;
  delta ← get_opt first "delta";
  get_opt delta "content".

(** *** streamChatCompletion *)

(** The try block run on the payload of one data line. *)
Definition decode_frame (data : string) : list stream_event :=
  match parsed ← parse data; delta_content parsed with
  | Normal content => if truthy content then [OnChunk content] else []
  | Throw e => [ParseError e]
  end.

(** The for loop over the complete lines of one chunk; the flag tells
    whether the function returned from inside the loop. *)
Fixpoint for_lines (lines : list string) : list stream_event * bool :=
  match lines with
  | [] => ([], false)
  | line :: rest =>
      if String.eqb (trim line) "" || negb (startsWith data_prefix line)
      then for_lines rest
      else
        let data := str_slice 6 line in
        if String.eqb data DONE then ([OnComplete], true)
        else let '(evs, returned) := for_lines rest in
             (decode_frame data ++ evs, returned)
  end.

(** The while loop over the chunks the reader yields (already decoded by
    the streaming TextDecoder); the reader reports done after the last. *)
Fixpoint read_loop (buffer : string) (chunks : list string) : list stream_event :=
  match chunks with
  | [] => [ReleaseLock]
  | value :: later =>
      let buffer := buffer +:+ value in
      let lines := split newline buffer in
      let buffer := default "" (last lines) in
      let lines := removelast lines in
      let '(evs, returned) := for_lines lines in
      if returned then evs ++ [ReleaseLock]
      else evs ++ read_loop buffer later
  end.

Definition streamChatCompletion (chunks : list string) : list stream_event :=
  read_loop "" chunks.

(** *** generateResponse *)

Fixpoint page_lines (lines : list string) : list page_event :=
  match lines with
  | [] => []
  | line :: rest =>
      let data := remove_first data_prefix line in
      if String.eqb data DONE then StatusText "Complete" :: page_lines rest
      else
        match parsed ← parse data; delta_content parsed with
        | Normal content => ResponseAppend (or_else content (VStr "")) :: page_lines rest
        | Throw e => PageParseError e :: page_lines rest
        end
  end.

Fixpoint page_loop (chunks : list string) : list page_event :=
  match chunks with
  | [] => []
  | chunk :: later =>
      let lines := filter (fun line => startsWith data_prefix (trim line) = true)
                          (split newline chunk) in
      page_lines lines ++ page_loop later
  end.

Definition generateResponse (prompt : string) (chunks : list string) : list page_event :=
  if String.eqb (trim prompt) "" then []
  else StatusText "Generating..." :: ResponseText "" :: page_loop chunks.

End Decoders.

Fixpoint chunks_emitted (evs : list stream_event) : list value :=
  match evs with
  | [] => []
  | OnChunk c :: rest => c :: chunks_emitted rest
  | _ :: rest => chunks_emitted rest
  end.

Fixpoint appended (evs : list page_event) : list value :=
  match evs with
  | [] => []
  | ResponseAppend c :: rest => c :: appended rest
  | _ :: rest => appended rest
  end.

(** Text of a list of string values, in order. *)
Fixpoint text_of (vs : list value) : string :=
  match vs with
  | [] => ""
  | VStr s :: rest => s +:+ text_of rest
  | _ :: rest => text_of rest
  end.

(** Frames of the wire format used in the examples. *)
Definition dq : ascii := Ascii.ascii_of_nat 34.
Definition quoted (s : string) : string := String dq (s +:+ String dq "").

Definition delta_prefix : string :=
  "{" +:+ quoted "choices" +:+ ":[{" +:+ quoted "delta" +:+ ":{" +:+ quoted "content" +:+ ":".
Definition delta_suffix : string := "}}]}".

Definition delta_payload (txt : string) : string :=
  delta_prefix +:+ quoted txt +:+ delta_suffix.

Definition delta_value (txt : string) : value :=
  VObj [("choices", VArr [VObj [("delta", VObj [("content", VStr txt)])]])].

Definition data_line (payload : string) : string := data_prefix +:+ payload.

Definition nl : string := String newline "".

(** A parser defined only on delta payloads whose text has no quote and no
    backslash, where it agrees with JSON.parse; it instantiates
    [JSON_parse] in the examples. *)
Fixpoint until_quote (s : string) : string * string :=
  match s with
  | EmptyString => (EmptyString, EmptyString)
  | String c s' =>
      if Ascii.eqb c dq then (EmptyString, s)
      else let '(a, b) := until_quote s' in (String c a, b)
  end.

Definition delta_only_parse (data : string) : option value :=
  if startsWith (delta_prefix +:+ String dq "") data then
    let '(txt, rest) := until_quote (str_slice (String.length delta_prefix + 1) data) in
    if String.eqb rest (String dq delta_suffix) && negb (includes "\" txt)
    then Some (delta_value txt) else None
  else None.

(** ** Image edit call (generateStylizedImage), two variants *)

(** [a && b] on values, [b] evaluated only when [a] is truthy. *)
Definition and_then (a : value) (b : completion value) : completion value :=
  if truthy a then b else Normal a.

(** [a || b] on values, [b] evaluated only when [a] is falsy. *)
Definition or_then (a : value) (b : completion value) : completion value :=
  if truthy a then Normal a else b.

(** What the function hands back to createCard. *)
Inductive image_ref : Type :=
| ObjectURL (r : Response)       (* URL.createObjectURL(await response.blob()) *)
| Field (v : value)              (* a field of the parsed body, as it is *)
| PngDataURI (payload : value).  (* `data:image/png;base64,${payload}` *)

Record image_run (A : Type) : Type := {
  submitted : list (string * value);   (* the object given to JSON.stringify *)
  console : list value;                (* console.log("Unexpected Image Response:", data) *)
  returned : completion A
}.
Arguments submitted {A} _.
Arguments console {A} _.
Arguments returned {A} _.

(** The card application script. *)
Module CardApp.

Definition prompt : string :=
  "A 1950s retro-futuristic watercolor holiday card featuring the person in the uploaded image. Seamlessly integrate their face and likeness into the scene as the main character. Atomic age Christmas style, pastel colors, vintage sci-fi aesthetic, festive atmosphere, highly detailed, smooth painting style.".

Definition base64Data (base64Image : string) : value :=
  or_else (at_index (split comma base64Image) 1) (VStr base64Image).

Definition unrecognized : error :=
  Error [VStr "Could not parse image URL from response"].

(** [data.data && data.data[0].field]. *)
Definition nested (data : value) (field : string) : completion value :=
  d ← get data "data";
  and_then d (d' ← get data "data"; first ← get0 d'; get first field).

(** The four if statements after [const data = await response.json()];
    [None] when control falls through all of them. *)
Definition normalize (data : value) : completion (option image_ref) :=
  c1 ← nested data "url";
  if truthy c1
  then d ← get data "data"; first ← get0 d; url ← get first "url";
       Normal (Some (Field url))
  else
  c2 ← nested data "b64_json";
  if truthy c2
  then d ← get data "data"; first ← get0 d; b64 ← get first "b64_json";
       Normal (Some (PngDataURI b64))
  else
  url ← get data "url";
  if truthy url then Normal (Some (Field url))
  else
  image ← get data "image";
  if truthy image then Normal (Some (PngDataURI image))
  else Normal None.

(** [contentType && contentType.includes('image')]. *)
Definition is_binary_image (response : Response) : bool :=
  match headers_get (headers response) "content-type" with
  | Some contentType => negb (String.eqb contentType "") && includes "image" contentType
  | None => false
  end.

Definition generateStylizedImage (apiKey base64Image : string) (net : fetch_result)
  : image_run image_ref :=
  let body := [("image", base64Data base64Image); ("prompt", VStr prompt)] in
  match net with
  | Rejected => {| submitted := body; console := []; returned := Throw FetchFailed |}
  | Resolved response =>
      if negb (ok response) then
        {| submitted := body; console := [];
           returned := Throw (Error [VStr "Image API Error: ";
                                     VNum (inject_Z (status response));
                                     VStr " - "; VStr (text response)]) |}
      else if is_binary_image response then
        {| submitted := body; console := []; returned := Normal (ObjectURL response) |}
      else
        match response_json response with
        | Throw e => {| submitted := body; console := []; returned := Throw e |}
        | Normal data =>
            match normalize data with
            | Throw e => {| submitted := body; console := []; returned := Throw e |}
            | Normal (Some ref) =>
                {| submitted := body; console := []; returned := Normal ref |}
            | Normal None =>
                {| submitted := body; console := [data]; returned := Throw unrecognized |}
            end
        end
  end.

End CardApp.

(** script.js. *)
Module ScriptJs.

Definition prompt : string :=
  "A whimsical, festive watercolor Christmas scene featuring the person in the uploaded image. Snowy wonderland background, twinkling lights, pine trees, artistic watercolor style, soft edges, festive atmosfera, preserve person likeness.".

Definition base64Data (base64Image : string) : value :=
  at_index (split comma base64Image) 1.

(** [data.url || (data.data && data.data[0].url) || (data.images && data.images[0].url)]. *)
Definition pick_url (data : value) : completion value :=
  url ← get data "url";
  or_then url
    (d ← get data "data";
     nested ← and_then d (d' ← get data "data"; first ← get0 d'; get first "url");
     or_then nested
       (imgs ← get data "images";
        and_then imgs (imgs' ← get data "images"; first ← get0 imgs'; get first "url"))).

Definition generateStylizedImage (apiKey base64Image : string) (net : fetch_result)
  : image_run value :=
  let body := [("image", base64Data base64Image); ("prompt", VStr prompt)] in
  match net with
  | Rejected => {| submitted := body; console := []; returned := Throw FetchFailed |}
  | Resolved response =>
      if negb (ok response) then
        {| submitted := body; console := [];
           returned := Throw (Error [VStr "API Error: ";
                                     VNum (inject_Z (status response));
                                     VStr " - "; VStr (text response)]) |}
      else
        {| submitted := body; console := [];
           returned := data ← response_json response; pick_url data |}
  end.

End ScriptJs.

(** The four documented response shapes and bodies outside them. *)
Definition ok_json (v : value) : Response :=
  {| status := 200; headers := [("content-type", "application/json")];
     text := ""; json := Some v |}.

Definition binary_image : Response :=
  {| status := 200; headers := [("content-type", "image/png")]; text := ""; json := None |}.

Definition direct_url (u : string) : value := VObj [("url", VStr u)].
Definition nested_url (u : string) : value := VObj [("data", VArr [VObj [("url", VStr u)]])].
Definition nested_b64 (b : string) : value := VObj [("data", VArr [VObj [("b64_json", VStr b)]])].
Definition inline_image (b : string) : value := VObj [("image", VStr b)].

(** ** Vocabulary of the statements *)

(** The [n] most recent entries of a log, oldest first. *)
Definition most_recent {A} (n : nat) (l : list A) : list A :=
  drop (length l - n)%nat l.

(** The text a reader delivered, chunk after chunk. *)
Definition joined (chunks : list string) : string := foldr String.append "" chunks.

(** Lines on the wire, each one ended by a line feed. *)
Definition wire (lines : list string) : string :=
  joined (map (fun line => line +:+ nl) lines).

Definition one_line (line : string) : Prop := includes nl line = false.

(** Stream frames as the server means them. *)
Inductive frame : Type :=
| Delta (txt : string)
| Terminator
| Noise (line : string).

Definition render (f : frame) : string :=
  match f with
  | Delta txt => data_line (delta_payload txt)
  | Terminator => data_line DONE
  | Noise line => line
  end.

(** The assistant message a frame sequence carries: the delta texts up
    to the terminator. *)
Fixpoint full_message (frames : list frame) : string :=
  match frames with
  | [] => ""
  | Delta txt :: rest => txt +:+ full_message rest
  | Terminator :: _ => ""
  | Noise _ :: rest => full_message rest
  end.

(** A frame the decoder under test can read back. *)
Definition well_formed (JSON_parse : string -> option value) (f : frame) : Prop :=
  one_line (render f) /\
  match f with
  | Delta txt => JSON_parse (delta_payload txt) = Some (delta_value txt)
  | Terminator => True
  | Noise line => startsWith data_prefix line = false
  end.

(** The try block of streamChatCompletion fails on this payload. *)
Definition malformed (JSON_parse : string -> option value) (data : string) (e : error) : Prop :=
  data <> DONE /\ (parsed ← parse JSON_parse data; delta_content parsed) = Throw e.

Definition error_response (st : Z) : fetch_result :=
  Resolved (response_of st [] (error_body "Rate limit exceeded")).

(** Responses by status, as the retry loop tells them apart. *)
Definition has_status (st : Z) (net : fetch_result) : bool :=
  match net with
  | Resolved r => (status r =? st) && bool_decide (is_Some (json r))
  | Rejected => false
  end.

(** ** Further code of the guide and of the two card pages *)

(** *** Observations on a run of callVeniceAPI *)

(** The same fetch outcome with every response header removed. *)
Definition without_headers (net : fetch_result) : fetch_result :=
  match net with
  | Rejected => Rejected
  | Resolved r =>
      Resolved {| status := status r; headers := []; text := text r; json := json r |}
  end.

(** A trace without its console.warn entries. *)
Fixpoint control_flow (evs : list api_event) : list api_event :=
  match evs with
  | [] => []
  | ConsoleWarn _ :: rest => control_flow rest
  | e :: rest => e :: control_flow rest
  end.

(** Milliseconds spent in setTimeout. *)
Definition total_wait (evs : list api_event) : Z := foldr Z.add 0 (waits evs).

(** Outcomes that end the try block in the catch clause. *)
Definition fails (net : fetch_result) : Prop :=
  match net with
  | Rejected => True
  | Resolved r => (ok r = false /\ status r <> 429) \/ json r = None
  end.

(** *** Any mix of calls on one VeniceConversation *)

Inductive conversation_call : Type :=
| CallAddMessage (role : string) (content : value)
| CallSend (userMessage : value) (options : list (string * value)) (net : fetch_result)
| CallClear.

Definition call (c : VeniceConversation) (op : conversation_call) : VeniceConversation :=
  match op with
  | CallAddMessage r v => addMessage r v c
  | CallSend userMessage options net => after (send c userMessage options net)
  | CallClear => clear c
  end.

Definition calls_from (c : VeniceConversation) (ops : list conversation_call)
  : VeniceConversation :=
  fold_left call ops c.

(** The value a key has in an object literal written as [{k1: v1, ..., ...spread}]:
    the last binding wins. *)
Definition literal_value (props : list (string * value)) (name : string) : value :=
  own (reverse props) name.

(** *** VeniceOrchestrator *)

(** [data.choices[0].message.content]. *)
Definition message_content (data : value) : completion value :=
  choices ← get data "choices";
  first ← get0 choices;
  message ← get first "message";
  get message "content".

Definition getResponse (prompt model : string) (net : fetch_result) : completion value :=
  match net with
  | Rejected => Throw FetchFailed
  | Resolved response => data ← response_json response; message_content data
  end.

Definition orchestrator_models : list string :=
  ["venice-uncensored"; "llama-3.3-70b"; "deepseek-v3"].

(** The rejection Promise.all passes on: that of the promise that is
    rejected first, [order] being the order in which the promises settle. *)
Fixpoint first_rejection (results : list (completion value)) (order : list nat)
  : option error :=
  match order with
  | [] => None
  | i :: later =>
      match results !! i with
      | Some (Throw e) => Some e
      | _ => first_rejection results later
      end
  end.

Fixpoint all_values (results : list (completion value)) : option (list value) :=
  match results with
  | [] => Some []
  | Normal v :: rest => cons v <$> all_values rest
  | Throw _ :: _ => None
  end.

(** [await Promise.all(promises)]; [None] when a promise that is rejected
    is missing from [order], that is, when [order] is not a settling order
    of these promises. *)
Definition promise_all (results : list (completion value)) (order : list nat)
  : option (completion (list value)) :=
  match first_rejection results order with
  | Some e => Some (Throw e)
  | None => Normal <$> all_values results
  end.

(** One entry of the array analyzeWithMultipleModels returns. *)
Record analysis : Type := { analysis_model : string; analysis_response : value }.

(** [net] tells how the request for each model is answered. *)
Definition analyzeWithMultipleModels (prompt : string) (net : string -> fetch_result)
    (order : list nat) : option (completion (list analysis)) :=
  let results := map (fun model => getResponse prompt model (net model)) orchestrator_models in
  match promise_all results order with
  | Some (Normal responses) =>
      Some (Normal (zip_with (fun model response =>
                                {| analysis_model := model; analysis_response := response |})
                             orchestrator_models responses))
  | Some (Throw e) => Some (Throw e)
  | None => None
  end.

(** The lines of a text that are ended by a line feed. *)
Definition complete_lines (text : string) : list string :=
  removelast (split newline text).

(** *** Frames without noise, for generateResponse *)

(** All delta texts of a frame sequence, the terminator not being a stop. *)
Fixpoint all_deltas (frames : list frame) : string :=
  match frames with
  | [] => ""
  | Delta txt :: rest => txt +:+ all_deltas rest
  | _ :: rest => all_deltas rest
  end.

Definition is_noise (f : frame) : bool :=
  match f with Noise _ => true | _ => false end.

(** *** The card application page: generateGreeting and createCard *)

Module CardAppPage.

(** What the catch clause of createCard can receive: an exception of the
    script, or the error event of the image that failed to load. *)
Inductive thrown : Type :=
| Script (e : error)
| LoadFailed.

Inductive ui_event : Type :=
| Alert (message : string)
| ButtonDisabled (b : bool)                     (* btn.disabled = b *)
| UpdateStatus (message type : string)          (* updateStatus(message, type) *)
| Log (message : string)                        (* log(message) *)
| LogGreeting (greetingText : string)           (* log(`Greeting: ...`) *)
| LogError (e : thrown)                         (* log(`ERROR: ${error.message}`) *)
| ConsoleError (e : thrown)
| GreetingRequest (apiKey : string)
| ImageRequest (submitted : list (string * value))
| UnexpectedImageResponse (data : value)        (* console.log of generateStylizedImage *)
| ImageSrc (ref : image_ref)                    (* generatedImage.src = genImageUrl *)
| DrawCanvas (greetingText : string)
| RevealCanvas.

Definition generateGreeting (apiKey : string) (net : fetch_result) : completion string :=
  match net with
  | Rejected => Throw FetchFailed
  | Resolved response =>
      if negb (ok response)
      then Throw (Error [VStr "Chat API Error: "; VNum (inject_Z (status response))])
      else
        data ← response_json response;
        content ← message_content data;
        match content with
        | VStr s => Normal (trim s)
        | _ => Throw TypeError
        end
  end.

(** The try block: its events and the exception that left it, if any. *)
Definition try_block (apiKey userImageSrc : string) (greetingNet imageNet : fetch_result)
    (imageLoads : bool) : list ui_event * option thrown :=
  let started := [UpdateStatus "Writing Greeting..." "normal";
                  Log "Generating retro greeting...";
                  GreetingRequest apiKey] in
  match generateGreeting apiKey greetingNet with
  | Throw e => (started, Some (Script e))
  | Normal greetingText =>
      let run := CardApp.generateStylizedImage apiKey userImageSrc imageNet in
      let painted := started ++
                     [LogGreeting greetingText;
                      UpdateStatus "Painting..." "normal";
                      Log "Transforming image...";
                      ImageRequest (submitted run)] ++
                     map UnexpectedImageResponse (console run) in
      match returned run with
      | Throw e => (painted, Some (Script e))
      | Normal genImageUrl =>
          if imageLoads
          then (painted ++
                [ImageSrc genImageUrl;
                 UpdateStatus "Compositing..." "normal";
                 Log "Compositing final card...";
                 DrawCanvas greetingText;
                 UpdateStatus "Complete!" "normal";
                 RevealCanvas], None)
          else (painted ++ [ImageSrc genImageUrl], Some LoadFailed)
      end
  end.

Definition createCard (apiKeyInput userImageSrc : string)
    (greetingNet imageNet : fetch_result) (imageLoads : bool) : list ui_event :=
  let apiKey := trim apiKeyInput in
  if String.eqb apiKey "" then [Alert "Please enter your Venice API Key"]
  else if String.eqb userImageSrc "" then [Alert "Please upload an image first"]
  else
    match try_block apiKey userImageSrc greetingNet imageNet imageLoads with
    | (evs, None) => ButtonDisabled true :: evs ++ [ButtonDisabled false]
    | (evs, Some error) =>
        ButtonDisabled true :: evs ++
        [ConsoleError error;
         LogError error;
         UpdateStatus "Error" "error";
         Alert "An error occurred. Check the logs or your API key.";
         ButtonDisabled false]
    end.

(** Whether the button is disabled once the events have happened. *)
Fixpoint button_disabled (before : bool) (evs : list ui_event) : bool :=
  match evs with
  | [] => before
  | ButtonDisabled b :: rest => button_disabled b rest
  | _ :: rest => button_disabled before rest
  end.

(** The greetings drawn on the canvas, in order. *)
Fixpoint drawn (evs : list ui_event) : list string :=
  match evs with
  | [] => []
  | DrawCanvas greetingText :: rest => greetingText :: drawn rest
  | _ :: rest => drawn rest
  end.

(** The requests among the events, in order. *)
Fixpoint requests (evs : list ui_event) : list ui_event :=
  match evs with
  | [] => []
  | GreetingRequest k :: rest => GreetingRequest k :: requests rest
  | ImageRequest b :: rest => ImageRequest b :: requests rest
  | _ :: rest => requests rest
  end.

End CardAppPage.

(** *** The script.js page: createCard *)

Module ScriptJsPage.

Inductive ui_event : Type :=
| Alert (message : string)
| ButtonDisabled (b : bool)                     (* btn.disabled = b *)
| UpdateStatus (message : string)               (* updateStatus(message) *)
| ConsoleError (e : error)
| ImageRequest (submitted : list (string * value))
| ImageSrc (genImageUrl : value)                (* generatedImage.src = genImageUrl *)
| ShowCanvas                                    (* placeholder hidden, canvas shown *)
| DrawImage.                                    (* canvas sized, ctx.drawImage *)

(** [imageLoads]: whether the load event of generatedImage ever fires. *)
Definition createCard (apiKeyInput userImageSrc : string)
    (imageNet : fetch_result) (imageLoads : bool) : list ui_event :=
  let apiKey := trim apiKeyInput in
  if String.eqb apiKey "" then [Alert "Please enter your Venice API Key"]
  else if String.eqb userImageSrc "" then [Alert "Please upload a photo first"]
  else
    let run := ScriptJs.generateStylizedImage apiKey userImageSrc imageNet in
    ButtonDisabled true :: UpdateStatus "Painting your scene..." ::
    ImageRequest (submitted run) ::
    match returned run with
    | Throw error =>
        [ConsoleError error;
         UpdateStatus "Error generating image";
         Alert "An error occurred. Please check your API key.";
         ButtonDisabled false]
    | Normal genImageUrl =>
        ImageSrc genImageUrl ::
        (if imageLoads
         then [ShowCanvas; DrawImage; UpdateStatus "Card ready!"; ButtonDisabled false]
         else [])
    end.

Fixpoint button_disabled (before : bool) (evs : list ui_event) : bool :=
  match evs with
  | [] => before
  | ButtonDisabled b :: rest => button_disabled b rest
  | _ :: rest => button_disabled before rest
  end.

End ScriptJsPage.

(** * Proofs *)

(** ** Strings: lines and chunks *)

Lemma str_app_cons (c : ascii) (s t : string) : String c s +:+ t = String c (s +:+ t).
Proof. reflexivity. Qed.

Lemma str_app_nil_r (s : string) : s +:+ "" = s.
Proof. induction s as [| c s IH]; [reflexivity |]. rewrite str_app_cons, IH. reflexivity. Qed.

Lemma str_app_assoc (a b c : string) : (a +:+ b) +:+ c = a +:+ (b +:+ c).
Proof. induction a as [| x a IH]; [reflexivity |]. rewrite !str_app_cons, IH. reflexivity. Qed.

Lemma split_not_nil (sep : ascii) (s : string) : split sep s <> [].
Proof.
  destruct s as [| c s]; simpl; [discriminate |].
  destruct (Ascii.eqb c sep); [discriminate |].
  destruct (split sep s); discriminate.
Qed.

Lemma split_cons_sep (sep : ascii) (s : string) :
  split sep (String sep s) = "" :: split sep s.
Proof. simpl. rewrite Ascii.eqb_refl. reflexivity. Qed.

Lemma split_cons_other (sep c : ascii) (s : string) :
  Ascii.eqb c sep = false ->
  exists cur rest, split sep s = cur :: rest /\ split sep (String c s) = String c cur :: rest.
Proof.
  intros Hc. simpl. rewrite Hc.
  destruct (split sep s) as [| cur rest] eqn:Hsp; [destruct (split_not_nil _ _ Hsp) |].
  eauto.
Qed.

(** Splitting a text that arrives in two parts: the lines completed by the
    first part stay as they are, its last segment is continued by the
    second part. *)
Lemma split_app (sep : ascii) (a b : string) :
  split sep (a +:+ b)
  = removelast (split sep a) ++ split sep (default "" (last (split sep a)) +:+ b).
Proof.
  induction a as [| c a IH]; [reflexivity |].
  rewrite str_app_cons.
  destruct (Ascii.eqb c sep) eqn:Hc.
  - apply Ascii.eqb_eq in Hc. subst c. rewrite !split_cons_sep, IH.
    destruct (split sep a) as [| x xs] eqn:Hsp; [destruct (split_not_nil _ _ Hsp) |].
    reflexivity.
  - destruct (split_cons_other sep c a Hc) as (cur & rest & Hsp & ->).
    destruct (split_cons_other sep c (a +:+ b) Hc) as (cur' & rest' & Hsp' & ->).
    rewrite IH, Hsp in Hsp'.
    destruct rest as [| r rs].
    + simpl in Hsp'.
      change (removelast [String c cur]) with (@nil string).
      change (default "" (last [String c cur])) with (String c cur).
      rewrite app_nil_l, str_app_cons.
      destruct (split_cons_other sep c (cur +:+ b) Hc) as (cur2 & rest2 & Hsp2 & ->).
      congruence.
    + simpl in Hsp'. injection Hsp' as <- <-. reflexivity.
Qed.

Lemma startsWith_char (c : ascii) (s : string) :
  startsWith (String c "") s = match s with
                                | String d _ => Ascii.eqb c d
                                | EmptyString => false
                                end.
Proof. destruct s as [| d s]; simpl; [reflexivity |]. apply andb_true_r. Qed.

Lemma split_without_separator (sep : ascii) (s : string) :
  includes (String sep "") s = false -> split sep s = [s].
Proof.
  induction s as [| c s IH]; [reflexivity |].
  cbn [includes split]. rewrite startsWith_char.
  intros [Hc Hs]%orb_false_elim.
  rewrite Ascii.eqb_sym, Hc, (IH Hs). reflexivity.
Qed.

Lemma split_with_separator (sep : ascii) (s : string) :
  includes (String sep "") s = true -> exists a b rest, split sep s = a :: b :: rest.
Proof.
  induction s as [| c s IH]; [discriminate |].
  cbn [includes]. rewrite startsWith_char, Ascii.eqb_sym.
  destruct (Ascii.eqb c sep) eqn:Hc.
  - intros _. apply Ascii.eqb_eq in Hc. subst c. rewrite split_cons_sep.
    destruct (split sep s) as [| b rest] eqn:Hsp; [destruct (split_not_nil _ _ Hsp) |].
    eauto.
  - cbn [orb]. intros H. destruct (IH H) as (a & b & rest & Hsp).
    destruct (split_cons_other sep c s Hc) as (cur & more & Hsp' & ->).
    rewrite Hsp in Hsp'. injection Hsp' as <- <-. eauto.
Qed.

Lemma split_one_line (line : string) : one_line line -> split newline line = [line].
Proof. apply split_without_separator. Qed.

Lemma split_segments_one_line (s : string) : Forall one_line (split newline s).
Proof.
  induction s as [| c s IH]; [repeat constructor |].
  destruct (Ascii.eqb c newline) eqn:Hc.
  - apply Ascii.eqb_eq in Hc. subst c. rewrite split_cons_sep.
    constructor; [reflexivity | exact IH].
  - destruct (split_cons_other newline c s Hc) as (cur & rest & Hsp & ->).
    rewrite Hsp in IH. inversion IH as [| ? ? Hcur Hrest]; subst.
    constructor; [| exact Hrest].
    unfold one_line, nl in *. cbn [includes]. rewrite startsWith_char.
    rewrite Ascii.eqb_sym, Hc. exact Hcur.
Qed.

Lemma last_split_one_line (s : string) : one_line (default "" (last (split newline s))).
Proof.
  pose proof (split_segments_one_line s) as Hall.
  destruct (last (split newline s)) as [seg |] eqn:Hlast; [| reflexivity].
  apply last_Some in Hlast as [init Hinit]. rewrite Hinit in Hall.
  apply Forall_app in Hall as [_ Hseg]. inversion Hseg; assumption.
Qed.

Lemma one_line_cons (c : ascii) (line : string) :
  one_line (String c line) <-> Ascii.eqb c newline = false /\ one_line line.
Proof.
  unfold one_line, nl. cbn [includes]. rewrite startsWith_char, orb_false_iff.
  rewrite (Ascii.eqb_sym newline c). reflexivity.
Qed.

Lemma split_line_then (line rest : string) :
  one_line line ->
  split newline (line +:+ String newline rest) = line :: split newline rest.
Proof.
  induction line as [| c line IH]; intros Hline.
  - apply split_cons_sep.
  - apply one_line_cons in Hline as [Hc Hline]. rewrite str_app_cons.
    destruct (split_cons_other newline c (line +:+ String newline rest) Hc)
      as (cur & more & Hsp & ->).
    rewrite (IH Hline) in Hsp. injection Hsp as <- <-. reflexivity.
Qed.

Lemma wire_cons (line : string) (lines : list string) :
  wire (line :: lines) = line +:+ String newline (wire lines).
Proof.
  unfold wire. cbn [map joined foldr]. rewrite str_app_assoc. reflexivity.
Qed.

(** A text made of whole lines followed by a tail splits into those lines
    and the segments of the tail. *)
Lemma split_wire (lines : list string) (tail : string) :
  Forall one_line lines ->
  split newline (wire lines +:+ tail) = lines ++ split newline tail.
Proof.
  induction 1 as [| line lines Hline _ IH]; [reflexivity |].
  rewrite wire_cons, str_app_assoc, str_app_cons.
  rewrite (split_line_then _ _ Hline), IH. reflexivity.
Qed.

(** ** Conversation management *)

Lemma slice_last {A} (n : Z) (l : list A) :
  0 < n -> slice (- n) l = most_recent (Z.to_nat n) l.
Proof.
  intros Hn. unfold slice, most_recent.
  destruct (Z.ltb_spec (- n) 0) as [_ | H]; [| lia].
  f_equal. lia.
Qed.

Lemma slice_zero {A} (l : list A) : slice (- 0) l = l.
Proof.
  unfold slice. change (- 0) with 0. simpl (0 <? 0).
  rewrite Z.min_l by lia. reflexivity.
Qed.

Lemma most_recent_all {A} (n : nat) (l : list A) :
  (length l <= n)%nat -> most_recent n l = l.
Proof.
  intros H. unfold most_recent.
  replace (length l - n)%nat with 0%nat by lia. reflexivity.
Qed.

Lemma most_recent_length {A} (n : nat) (l : list A) :
  length (most_recent n l) = Nat.min n (length l).
Proof. unfold most_recent. rewrite length_drop. lia. Qed.

Lemma most_recent_suffix {A} (n : nat) (l : list A) : most_recent n l `suffix_of` l.
Proof. apply suffix_drop. Qed.

Lemma most_recent_snoc {A} (n : nat) (l : list A) (x : A) :
  (0 < n)%nat -> most_recent n (most_recent n l ++ [x]) = most_recent n (l ++ [x]).
Proof.
  intros Hn. unfold most_recent.
  rewrite !length_app, length_drop. simpl.
  destruct (Nat.le_gt_cases (length l) n) as [Hle | Hgt].
  - replace (length l - n)%nat with 0%nat by lia. simpl.
    f_equal. lia.
  - rewrite (drop_app_le l [x] (length l + 1 - n)) by lia.
    rewrite (drop_app_le (drop _ l)) by (rewrite length_drop; lia).
    rewrite drop_drop. f_equal. f_equal. lia.
Qed.

Lemma most_recent_last {A} (n : nat) (l : list A) (x : A) :
  (0 < n)%nat -> last (most_recent n (l ++ [x])) = Some x.
Proof.
  intros Hn. unfold most_recent. rewrite length_app. simpl.
  rewrite drop_app_le by lia. apply last_snoc.
Qed.

(** One addMessage keeps the most recent maxHistory entries of the log
    with the new message at its end. *)
Lemma addMessage_messages (r : string) (v : value) (c : VeniceConversation) :
  0 < maxHistory c ->
  messages (addMessage r v c)
  = most_recent (Z.to_nat (maxHistory c)) (messages c ++ [{| role := r; content := v |}]).
Proof.
  intros Hmax. unfold addMessage.
  destruct (Z.ltb_spec (maxHistory c)
              (Z.of_nat (length (messages c ++ [{| role := r; content := v |}])))) as [Hlt | Hge];
    simpl.
  - apply slice_last. exact Hmax.
  - symmetry. apply most_recent_all. lia.
Qed.

Lemma addMessage_maxHistory (r : string) (v : value) (c : VeniceConversation) :
  maxHistory (addMessage r v c) = maxHistory c.
Proof. unfold addMessage. destruct (_ <? _); reflexivity. Qed.

Lemma add_all_snoc (calls : list Message) (m : Message) (c : VeniceConversation) :
  add_all (calls ++ [m]) c = addMessage (role m) (content m) (add_all calls c).
Proof. unfold add_all. rewrite fold_left_app. reflexivity. Qed.

Lemma add_all_maxHistory (calls : list Message) (c : VeniceConversation) :
  maxHistory (add_all calls c) = maxHistory c.
Proof.
  induction calls as [| m calls IH] using rev_ind; [reflexivity |].
  rewrite add_all_snoc, addMessage_maxHistory. exact IH.
Qed.

Lemma add_all_messages (calls : list Message) (c : VeniceConversation) :
  0 < maxHistory c ->
  (length (messages c) <= Z.to_nat (maxHistory c))%nat ->
  messages (add_all calls c) = most_recent (Z.to_nat (maxHistory c)) (messages c ++ calls).
Proof.
  intros Hmax Hlen.
  induction calls as [| [r v] calls IH] using rev_ind.
  - simpl. rewrite app_nil_r. symmetry. apply most_recent_all. exact Hlen.
  - rewrite add_all_snoc. simpl.
    rewrite addMessage_messages by (rewrite add_all_maxHistory; exact Hmax).
    rewrite add_all_maxHistory, IH, app_assoc.
    apply most_recent_snoc. lia.
Qed.

(** The bound is kept by every single call, whatever the state it starts
    from, as soon as maxHistory is positive. *)
Lemma addMessage_bound (r : string) (v : value) (c : VeniceConversation) :
  0 < maxHistory c ->
  Z.of_nat (length (messages (addMessage r v c))) <= maxHistory c.
Proof.
  intros Hmax. rewrite addMessage_messages by exact Hmax.
  rewrite most_recent_length. lia.
Qed.

Lemma addMessage_suffix (r : string) (v : value) (c : VeniceConversation) :
  0 < maxHistory c ->
  messages (addMessage r v c) `suffix_of` (messages c ++ [{| role := r; content := v |}]).
Proof.
  intros Hmax. rewrite addMessage_messages by exact Hmax. apply most_recent_suffix.
Qed.

(** With maxHistory set to 0 the trim keeps everything: slice(-0) is slice(0). *)
Lemma addMessage_maxHistory_zero (r : string) (v : value) (c : VeniceConversation) :
  maxHistory c = 0 ->
  messages (addMessage r v c) = messages c ++ [{| role := r; content := v |}].
Proof.
  intros H0. unfold addMessage. rewrite H0.
  destruct (_ <? _); simpl; [apply slice_zero | reflexivity].
Qed.

(** C5. Starting from a fresh VeniceConversation, after any sequence of
    addMessage calls the message list is no longer than maxHistory (20),
    it is exactly the 20 most recent messages added, in the order they were
    added, and one more call leaves a suffix of the old list followed by
    the new message: only the oldest end is dropped. *)
Theorem conversation_keeps_most_recent (key mdl : string) (calls : list Message) :
  let c := add_all calls (constructor key mdl) in
  Z.of_nat (length (messages c)) <= maxHistory c /\
  messages c = most_recent 20 calls /\
  forall m : Message,
    messages (addMessage (role m) (content m) c) `suffix_of` (messages c ++ [m]) /\
    last (messages (addMessage (role m) (content m) c)) = Some m.
Proof.
  intros c.
  assert (Hmax : maxHistory c = 20) by (unfold c; apply add_all_maxHistory).
  assert (Hms : messages c = most_recent 20 calls).
  { unfold c. rewrite add_all_messages; simpl; [reflexivity | lia | lia]. }
  split; [| split].
  - rewrite Hms, Hmax, most_recent_length. lia.
  - exact Hms.
  - intros [r v]. simpl. split.
    + apply addMessage_suffix. lia.
    + rewrite addMessage_messages by lia. rewrite Hmax.
      apply most_recent_last. lia.
Qed.

(** The bound holds from any state within it, not only a fresh one. *)
Lemma add_all_bound (calls : list Message) (c : VeniceConversation) :
  0 < maxHistory c ->
  Z.of_nat (length (messages c)) <= maxHistory c ->
  Z.of_nat (length (messages (add_all calls c))) <= maxHistory c.
Proof.
  intros Hmax Hlen. rewrite add_all_messages by lia.
  rewrite most_recent_length. lia.
Qed.

Example conversation_23_calls :
  map role (messages (add_all
    (map (fun n => {| role := String (Ascii.ascii_of_nat (65 + n)) ""; content := VNull |}) (seq 0 23))
    (constructor "key" default_model)))
  = ["D"; "E"; "F"; "G"; "H"; "I"; "J"; "K"; "L"; "M"; "N"; "O"; "P"; "Q"; "R"; "S"; "T";
     "U"; "V"; "W"].
Proof. vm_compute. reflexivity. Qed.

(** *** send *)

Lemma send_appends_first (c : VeniceConversation) (userMessage : value)
    (options : list (string * value)) (net : fetch_result) :
  sent_body (send c userMessage options net)
  = [("model", VStr (model c));
     ("messages", VArr (map message_value (messages (addMessage "user" userMessage c))))]
    ++ options.
Proof.
  unfold send.
  assert (Hm : model (addMessage "user" userMessage c) = model c)
    by (unfold addMessage; destruct (_ <? _); reflexivity).
  rewrite Hm.
  destruct net as [| response]; [reflexivity |].
  destruct (_ ≫= _); reflexivity.
Qed.

Lemma send_maxHistory (c : VeniceConversation) (userMessage : value)
    (options : list (string * value)) (net : fetch_result) :
  maxHistory (after (send c userMessage options net)) = maxHistory c.
Proof.
  unfold send. destruct net as [| response]; simpl.
  - apply addMessage_maxHistory.
  - destruct (_ ≫= _); simpl; rewrite ?addMessage_maxHistory; reflexivity.
Qed.

Lemma addMessage_last (r : string) (v : value) (c : VeniceConversation) :
  0 <= maxHistory c ->
  last (messages (addMessage r v c)) = Some {| role := r; content := v |}.
Proof.
  intros Hmax. destruct (Z.eq_dec (maxHistory c) 0) as [H0 | Hne].
  - rewrite addMessage_maxHistory_zero by exact H0. apply last_snoc.
  - rewrite addMessage_messages by lia. apply most_recent_last. lia.
Qed.

(** The ways send can fail. *)
Lemma send_fails_when (c : VeniceConversation) (userMessage : value)
    (options : list (string * value)) (net : fetch_result) (e : error) :
  result (send c userMessage options net) = Throw e <->
  match net with
  | Rejected => e = FetchFailed
  | Resolved response =>
      (data ← response_json response;
       choices ← get data "choices";
       first ← get0 choices;
       message ← get first "message";
       get message "content") = Throw e
  end.
Proof.
  unfold send. destruct net as [| response]; simpl.
  - split; [intros [= <-]; reflexivity | intros ->; reflexivity].
  - destruct (_ ≫= _) as [v | e']; simpl; split; congruence.
Qed.

(** C9. send appends the user message before it issues the request (the
    request body carries the list with that message in it), and whenever
    send fails, whether fetch rejects, the body is not JSON or the body
    lacks choices[0].message.content, the conversation it leaves is the
    one addMessage('user', userMessage) produced: the user message is
    still the last entry, nothing is rolled back. *)
Theorem send_failure_keeps_user_message (c : VeniceConversation) (userMessage : value)
    (options : list (string * value)) (net : fetch_result) (e : error) :
  0 <= maxHistory c ->
  result (send c userMessage options net) = Throw e ->
  sent_body (send c userMessage options net)
    = [("model", VStr (model c));
       ("messages", VArr (map message_value (messages (addMessage "user" userMessage c))))]
      ++ options /\
  after (send c userMessage options net) = addMessage "user" userMessage c /\
  last (messages (after (send c userMessage options net)))
    = Some {| role := "user"; content := userMessage |}.
Proof.
  intros Hmax Hfail.
  assert (Hafter : after (send c userMessage options net) = addMessage "user" userMessage c).
  { revert Hfail. unfold send. destruct net as [| response]; simpl; [reflexivity |].
    destruct (_ ≫= _) as [v | e']; simpl; [discriminate | reflexivity]. }
  split; [apply send_appends_first |].
  split; [exact Hafter |].
  rewrite Hafter. apply addMessage_last. exact Hmax.
Qed.

Lemma send_failure_keeps_user_message_witness :
  result (send (constructor "key" default_model) (VStr "hello") [] (error_response 429))
    = Throw TypeError /\
  messages (after (send (constructor "key" default_model) (VStr "hello") []
                        (error_response 429)))
    = [{| role := "user"; content := VStr "hello" |}].
Proof.
  split; [reflexivity |].
  pose proof (send_failure_keeps_user_message (constructor "key" default_model)
                (VStr "hello") [] (error_response 429) TypeError) as H.
  destruct H as (_ & Hafter & _); [simpl; lia | reflexivity |].
  rewrite Hafter. reflexivity.
Defined.

(** A fetch that rejects and a body that is not JSON fail the same way. *)
Example send_network_failure :
  let run := send (constructor "key" default_model) (VStr "hello") [] Rejected in
  result run = Throw FetchFailed /\
  messages (after run) = [{| role := "user"; content := VStr "hello" |}].
Proof. split; reflexivity. Qed.

(** send looks at the body only: a non-2xx response whose body has the
    shape of a completion is not a failure. *)
Example send_ignores_status :
  let reply := VObj [("choices", VArr [VObj [("message", VObj [("content", VStr "hi")])]])] in
  result (send (constructor "key" default_model) (VStr "hello") []
               (Resolved (response_of 500 [] reply)))
  = Normal (VStr "hi").
Proof. reflexivity. Qed.

Example send_success_appends_both :
  let reply := VObj [("choices", VArr [VObj [("message", VObj [("content", VStr "hi")])]])] in
  let run := send (constructor "key" default_model) (VStr "hello") []
                  (Resolved (response_of 200 [] reply)) in
  result run = Normal (VStr "hi") /\
  messages (after run) = [{| role := "user"; content := VStr "hello" |};
                          {| role := "assistant"; content := VStr "hi" |}].
Proof. split; reflexivity. Qed.

(** ** The image payload taken from the data URI *)

Lemma base64Data_no_comma (base64Image : string) :
  includes "," base64Image = false ->
  ScriptJs.base64Data base64Image = VUndefined /\
  CardApp.base64Data base64Image = VStr base64Image.
Proof.
  intros Hno. unfold ScriptJs.base64Data, CardApp.base64Data.
  rewrite (split_without_separator comma) by exact Hno. split; reflexivity.
Qed.

Lemma ScriptJs_submits_base64Data (apiKey base64Image : string) (net : fetch_result) :
  own (submitted (ScriptJs.generateStylizedImage apiKey base64Image net)) "image"
  = ScriptJs.base64Data base64Image.
Proof.
  unfold ScriptJs.generateStylizedImage.
  destruct net as [| response]; [reflexivity |].
  destruct (negb (ok response)); reflexivity.
Qed.

Lemma CardApp_submits_base64Data (apiKey base64Image : string) (net : fetch_result) :
  own (submitted (CardApp.generateStylizedImage apiKey base64Image net)) "image"
  = CardApp.base64Data base64Image.
Proof.
  unfold CardApp.generateStylizedImage.
  destruct net as [| response]; [reflexivity |].
  destruct (negb (ok response)); [reflexivity |].
  destruct (CardApp.is_binary_image response); [reflexivity |].
  destruct (response_json response) as [data |]; [| reflexivity].
  destruct (CardApp.normalize data) as [[ref |] |]; reflexivity.
Qed.

(** C10. On an input string without a comma script.js extracts undefined
    (split(',')[1] is out of range) and submits it as the image, the card
    application script falls back to the input string unchanged and submits
    that; so on such inputs the two variants never agree. *)
Theorem base64Data_without_comma (apiKey base64Image : string) (net : fetch_result) :
  includes "," base64Image = false ->
  ScriptJs.base64Data base64Image = VUndefined /\
  CardApp.base64Data base64Image = VStr base64Image /\
  own (submitted (ScriptJs.generateStylizedImage apiKey base64Image net)) "image" = VUndefined /\
  own (submitted (CardApp.generateStylizedImage apiKey base64Image net)) "image"
    = VStr base64Image /\
  ScriptJs.base64Data base64Image <> CardApp.base64Data base64Image.
Proof.
  intros Hno. destruct (base64Data_no_comma base64Image Hno) as [Hs Hc].
  rewrite ScriptJs_submits_base64Data, CardApp_submits_base64Data, Hs, Hc.
  repeat split; discriminate.
Qed.

Lemma base64Data_without_comma_witness :
  includes "," "QUJD" = false /\
  ScriptJs.base64Data "QUJD" = VUndefined /\
  CardApp.base64Data "QUJD" = VStr "QUJD".
Proof.
  split; [reflexivity |].
  destruct (base64Data_without_comma "key" "QUJD" Rejected eq_refl) as (H1 & H2 & _).
  split; assumption.
Defined.

(** Agreement forces a comma; a comma does not force agreement. *)
Corollary variants_agree_only_with_comma (base64Image : string) :
  ScriptJs.base64Data base64Image = CardApp.base64Data base64Image ->
  includes "," base64Image = true.
Proof.
  intros Heq. destruct (includes "," base64Image) eqn:Hinc; [reflexivity |].
  destruct (base64Data_no_comma base64Image Hinc) as [Hs Hc].
  rewrite Hs, Hc in Heq. discriminate.
Qed.

Lemma ScriptJs_base64Data_with_comma (base64Image : string) :
  includes "," base64Image = true ->
  exists payload, ScriptJs.base64Data base64Image = VStr payload.
Proof.
  intros (a & b & rest & Hsp)%(split_with_separator comma).
  exists b. unfold ScriptJs.base64Data. rewrite Hsp. reflexivity.
Qed.

Lemma variants_agree_on_data_uri (base64Image : string) :
  includes "," base64Image = true ->
  truthy (ScriptJs.base64Data base64Image) = true ->
  ScriptJs.base64Data base64Image = CardApp.base64Data base64Image.
Proof.
  intros _ Ht. unfold CardApp.base64Data, or_else.
  unfold ScriptJs.base64Data in Ht. rewrite Ht. reflexivity.
Qed.

Example variants_disagree_on_empty_payload :
  ScriptJs.base64Data "data:image/png;base64," = VStr "" /\
  CardApp.base64Data "data:image/png;base64," = VStr "data:image/png;base64,".
Proof. split; reflexivity. Qed.

Example data_uri_is_stripped :
  ScriptJs.base64Data "data:image/png;base64,QUJD" = VStr "QUJD" /\
  CardApp.base64Data "data:image/png;base64,QUJD" = VStr "QUJD".
Proof. split; reflexivity. Qed.

(** ** callVeniceAPI *)

Section RetryController.

Variables (endpoint : string) (body : value).

Lemma fetches_app (xs ys : list api_event) : fetches (xs ++ ys) = (fetches xs + fetches ys)%nat.
Proof.
  induction xs as [| [] xs IH]; simpl; rewrite ?IH; reflexivity.
Qed.

Lemma waits_app (xs ys : list api_event) : waits (xs ++ ys) = waits xs ++ waits ys.
Proof.
  induction xs as [| [] xs IH]; simpl; rewrite ?IH; reflexivity.
Qed.

Lemma rate_limit_check_silent (r : Response) :
  fetches (rate_limit_check r) = 0%nat /\ waits (rate_limit_check r) = [].
Proof.
  unfold rate_limit_check.
  destruct (headers_get _ _) as [remaining |]; [| split; reflexivity].
  destruct (_ && _); split; reflexivity.
Qed.

Lemma not_ok (r : Response) : status r = 429 \/ status r = 401 -> ok r = false.
Proof. unfold ok. intros [-> | ->]; reflexivity. Qed.

(** A 429 whose body is JSON: log, wait min(2^retryCount * 1000, 60000),
    go round the loop again.  The headers play no part in the delay. *)
Lemma try_body_429 (retryCount : Z) (r : Response) (v : value) :
  status r = 429 -> json r = Some v ->
  try_body endpoint body retryCount (Resolved r)
  = (FetchCall endpoint body :: rate_limit_check r
       ++ [ConsoleLog (Z.min (2 ^ retryCount * 1000) 60000);
           Wait (Z.min (2 ^ retryCount * 1000) 60000)],
     Continues).
Proof.
  intros Hst Hjson. unfold try_body, response_json.
  rewrite not_ok by auto. rewrite Hjson, Hst. reflexivity.
Qed.

(** A 401 whose body is JSON: the authentication error is thrown inside
    the try block, so the catch clause of the same function receives it. *)
Lemma try_body_401 (retryCount : Z) (r : Response) (v : value) :
  status r = 401 -> json r = Some v ->
  try_body endpoint body retryCount (Resolved r)
  = (FetchCall endpoint body :: rate_limit_check r, Caught invalid_api_key).
Proof.
  intros Hst Hjson. unfold try_body, response_json.
  rewrite not_ok by auto. rewrite Hjson, Hst. reflexivity.
Qed.

Lemma try_body_rejected (retryCount : Z) :
  try_body endpoint body retryCount Rejected = ([FetchCall endpoint body], Caught FetchFailed).
Proof. reflexivity. Qed.

(** Every pass through the try block sends exactly one request. *)
Lemma try_body_one_fetch (retryCount : Z) (net : fetch_result) :
  fetches (try_body endpoint body retryCount net).1 = 1%nat.
Proof.
  destruct net as [| r]; [reflexivity |]. unfold try_body.
  destruct (rate_limit_check_silent r) as [Hf _].
  destruct (negb (ok r)).
  - destruct (response_json r) as [err | e]; simpl; [| rewrite Hf; reflexivity].
    destruct (status r =? 429); simpl.
    + rewrite fetches_app, Hf. reflexivity.
    + destruct (status r =? 401); simpl; [rewrite Hf; reflexivity |].
      destruct (_ ≫= _); simpl; rewrite Hf; reflexivity.
  - destruct (response_json r); simpl; rewrite Hf; reflexivity.
Qed.

Lemma retry_loop_cons (retryCount : Z) (net : fetch_result) (rest : list fetch_result) :
  retry_loop endpoint body retryCount (net :: rest)
  = if retryCount <? maxRetries then
      match try_body endpoint body retryCount net with
      | (evs, Returns v) => {| trace := evs; settled := Some (Normal v) |}
      | (evs, Continues) => before evs (retry_loop endpoint body (retryCount + 1) rest)
      | (evs, Caught e) =>
          if retryCount =? maxRetries - 1
          then {| trace := evs; settled := Some (Throw e) |}
          else before (evs ++ [Wait (1000 * (retryCount + 1))])
                      (retry_loop endpoint body (retryCount + 1) rest)
      end
    else {| trace := []; settled := Some (Normal VUndefined) |}.
Proof. reflexivity. Qed.

Lemma retry_loop_exhausted (retryCount : Z) (responses : list fetch_result) :
  maxRetries <= retryCount ->
  retry_loop endpoint body retryCount responses
  = {| trace := []; settled := Some (Normal VUndefined) |}.
Proof.
  intros H. destruct responses; simpl;
    (destruct (Z.ltb_spec retryCount maxRetries); [lia | reflexivity]).
Qed.

(** The attempt cap: from retry count k at most 3 - k requests are sent. *)
Lemma retry_loop_cap (responses : list fetch_result) (retryCount : Z) :
  0 <= retryCount ->
  Z.of_nat (attempts (retry_loop endpoint body retryCount responses))
  <= Z.max 0 (maxRetries - retryCount).
Proof.
  revert retryCount. unfold attempts.
  induction responses as [| net rest IH]; intros k Hk.
  - simpl. destruct (k <? maxRetries); simpl; lia.
  - rewrite retry_loop_cons.
    destruct (Z.ltb_spec k maxRetries) as [Hlt | Hge]; [| simpl; lia].
    pose proof (try_body_one_fetch k net) as Hone.
    specialize (IH (k + 1) ltac:(lia)).
    destruct (try_body endpoint body k net) as [evs [v | | e]]; simpl in *.
    + lia.
    + rewrite fetches_app. lia.
    + destruct (k =? maxRetries - 1); simpl; [lia |].
      rewrite !fetches_app. simpl. lia.
Qed.

End RetryController.

Section RetryOutcomes.

Variables (endpoint : string) (body : value).

Lemma has_status_inv (st : Z) (net : fetch_result) :
  has_status st net = true ->
  exists r v, net = Resolved r /\ status r = st /\ json r = Some v.
Proof.
  destruct net as [| r]; [discriminate |]. simpl.
  intros [Hst Hj]%andb_true_iff.
  apply bool_decide_eq_true_1 in Hj. destruct Hj as [v Hv].
  exists r, v. repeat split; [lia | exact Hv].
Qed.

Lemma settled_before (evs : list api_event) (run : api_run) :
  settled (before evs run) = settled run.
Proof. reflexivity. Qed.

Lemma attempts_before (evs : list api_event) (run : api_run) :
  attempts (before evs run) = (fetches evs + attempts run)%nat.
Proof. unfold attempts, before. simpl. apply fetches_app. Qed.

Lemma waits_before (evs : list api_event) (run : api_run) :
  waits (trace (before evs run)) = waits evs ++ waits (trace run).
Proof. unfold before. simpl. apply waits_app. Qed.

Lemma events_429 (r : Response) (w : Z) :
  fetches (FetchCall endpoint body :: rate_limit_check r ++ [ConsoleLog w; Wait w]) = 1%nat /\
  waits (FetchCall endpoint body :: rate_limit_check r ++ [ConsoleLog w; Wait w]) = [w].
Proof.
  destruct (rate_limit_check_silent r) as [F W].
  cbn [fetches waits]. rewrite fetches_app, waits_app, F, W. split; reflexivity.
Qed.

(** Three rate-limited attempts in a row: the loop condition fails and the
    function runs off its end, so the caller gets undefined, not an error. *)
Lemma three_429_return_undefined (n1 n2 n3 : fetch_result) (rest : list fetch_result) :
  has_status 429 n1 = true -> has_status 429 n2 = true -> has_status 429 n3 = true ->
  let run := callVeniceAPI endpoint body (n1 :: n2 :: n3 :: rest) in
  settled run = Some (Normal VUndefined) /\
  attempts run = 3%nat /\
  waits (trace run) = [1000; 2000; 4000].
Proof.
  intros (r1 & v1 & -> & H1 & J1)%has_status_inv
         (r2 & v2 & -> & H2 & J2)%has_status_inv
         (r3 & v3 & -> & H3 & J3)%has_status_inv.
  unfold callVeniceAPI.
  rewrite retry_loop_cons, (try_body_429 _ _ _ _ v1 H1 J1).
  rewrite retry_loop_cons, (try_body_429 _ _ _ _ v2 H2 J2).
  rewrite retry_loop_cons, (try_body_429 _ _ _ _ v3 H3 J3).
  rewrite retry_loop_exhausted by (unfold maxRetries; lia).
  change (0 <? maxRetries) with true.
  change (0 + 1 <? maxRetries) with true.
  change (0 + 1 + 1 <? maxRetries) with true.
  cbv zeta iota.
  rewrite !settled_before, !attempts_before, !waits_before.
  rewrite !(proj1 (events_429 _ _)), !(proj2 (events_429 _ _)).
  repeat split.
Qed.

(** Three network failures in a row: the third one is rethrown. *)
Lemma three_rejections_throw (rest : list fetch_result) :
  let run := callVeniceAPI endpoint body (Rejected :: Rejected :: Rejected :: rest) in
  settled run = Some (Throw FetchFailed) /\
  attempts run = 3%nat /\
  waits (trace run) = [1000; 2000].
Proof. repeat split. Qed.

(** A 401 on the first attempt is caught by the catch clause: the call
    waits one second and sends the request again. *)
Lemma first_401_is_retried (r : Response) (rest : list fetch_result) :
  status r = 401 ->
  callVeniceAPI endpoint body (Resolved r :: rest)
  = before (FetchCall endpoint body :: rate_limit_check r ++ [Wait 1000])
           (retry_loop endpoint body 1 rest).
Proof.
  intros Hst. unfold callVeniceAPI. rewrite retry_loop_cons.
  unfold try_body, response_json. rewrite not_ok by auto. rewrite Hst.
  destruct (json r); reflexivity.
Qed.

Lemma first_401_second_request (r : Response) (net : fetch_result) (rest : list fetch_result) :
  status r = 401 ->
  (2 <= attempts (callVeniceAPI endpoint body (Resolved r :: net :: rest)))%nat.
Proof.
  intros Hst. rewrite first_401_is_retried by exact Hst.
  unfold attempts. cbn [before trace fetches]. rewrite !fetches_app.
  rewrite retry_loop_cons. simpl (1 <? maxRetries).
  pose proof (try_body_one_fetch endpoint body 1 net) as Hone.
  destruct (try_body endpoint body 1 net) as [evs [v | | e]]; simpl in *;
    rewrite ?fetches_app; lia.
Qed.

(** The authentication error reaches the caller only from the last
    permitted attempt. *)
Example three_401_throw :
  let run := callVeniceAPI endpoint body [r401; r401; r401] in
  settled run = Some (Throw invalid_api_key) /\ attempts run = 3%nat.
Proof. split; reflexivity. Qed.

(** With a single scripted response the call is still running after the
    401: it is waiting to send the request again. *)
Example single_401_waits_to_retry :
  callVeniceAPI endpoint body [r401]
  = {| trace := [FetchCall endpoint body; Wait 1000]; settled := None |}.
Proof. reflexivity. Qed.

Example two_429_then_200 :
  let run := callVeniceAPI endpoint body [r429; r429; r200] in
  settled run = Some (Normal (VObj [("id", VStr "ok")])) /\
  attempts run = 3%nat /\ waits (trace run) = [1000; 2000].
Proof. repeat split. Qed.

(** C1. Code: a response sequence that begins with a 401 does not end the
    call.  On [401, 200] callVeniceAPI sends two requests, one second
    apart, and returns the body of the 200; no authentication error is
    raised. *)
Theorem callVeniceAPI_retries_after_401 :
  callVeniceAPI endpoint body [r401; r200]
  = {| trace := [FetchCall endpoint body; Wait 1000; FetchCall endpoint body];
       settled := Some (Normal (VObj [("id", VStr "ok")])) |} /\
  attempts (callVeniceAPI endpoint body [r401; r200]) = 2%nat.
Proof. split; reflexivity. Qed.

(** C2. Code: on four consecutive 429 responses callVeniceAPI sends three
    requests, waits 1000, 2000 and 4000 ms, and then returns undefined to
    the caller; no error is raised. *)
Theorem callVeniceAPI_four_429_returns_undefined :
  let run := callVeniceAPI endpoint body [r429; r429; r429; r429] in
  attempts run = 3%nat /\
  waits (trace run) = [1000; 2000; 4000] /\
  settled run = Some (Normal VUndefined).
Proof. repeat split. Qed.

(** The delay after a 429 on the attempt with retry count k is
    min(2^k * 1000, 60000); within the three attempts the cap is never
    reached. *)
Lemma rate_limit_delay (retryCount : Z) (r : Response) (v : value) :
  status r = 429 -> json r = Some v ->
  waits (try_body endpoint body retryCount (Resolved r)).1
  = [Z.min (2 ^ retryCount * 1000) 60000].
Proof.
  intros Hst Hjson. rewrite (try_body_429 _ _ _ _ v Hst Hjson).
  destruct (rate_limit_check_silent r) as [_ W].
  cbn [fst waits]. rewrite waits_app, W. reflexivity.
Qed.

Lemma rate_limit_delay_below_cap (retryCount : Z) :
  0 <= retryCount < maxRetries ->
  Z.min (2 ^ retryCount * 1000) 60000 = 2 ^ retryCount * 1000 /\
  2 ^ retryCount * 1000 <= 4000.
Proof.
  unfold maxRetries. intros H.
  assert (retryCount = 0 \/ retryCount = 1 \/ retryCount = 2) as [-> | [-> | ->]] by lia;
    split; reflexivity || lia.
Qed.

(** Two 429 responses that differ only in their headers are followed by
    the same delay. *)
Lemma rate_limit_delay_ignores_headers (retryCount : Z) (r : Response)
    (hs : list (string * string)) (v : value) :
  status r = 429 -> json r = Some v ->
  waits (try_body endpoint body retryCount
           (Resolved {| status := status r; headers := hs; text := text r; json := json r |})).1
  = waits (try_body endpoint body retryCount (Resolved r)).1.
Proof.
  intros Hst Hjson.
  rewrite (rate_limit_delay _ _ v Hst Hjson).
  apply (rate_limit_delay _ _ v); [exact Hst | exact Hjson].
Qed.

(** C7. Code: the reset hint is read and not used.  Whatever value the
    x-ratelimit-reset-requests header carries on a 429 at the first
    attempt, the call waits 1000 ms = min(2^0 * 1000, 60000), the same as
    without the header. *)
Theorem callVeniceAPI_ignores_reset_hint (hint : string) :
  waits (trace (callVeniceAPI endpoint body [r429_reset hint; r200])) = [1000] /\
  waits (trace (callVeniceAPI endpoint body [r429; r200])) = [1000].
Proof. split; reflexivity. Qed.

End RetryOutcomes.

(** ** streamChatCompletion *)

Section StreamDecoder.

Variable JSON_parse : string -> option value.

Lemma for_lines_app (xs ys : list string) :
  for_lines JSON_parse (xs ++ ys)
  = if (for_lines JSON_parse xs).2 then ((for_lines JSON_parse xs).1, true)
    else ((for_lines JSON_parse xs).1 ++ (for_lines JSON_parse ys).1, (for_lines JSON_parse ys).2).
Proof.
  induction xs as [| line xs IH]; cbn [app for_lines].
  - simpl. destruct (for_lines JSON_parse ys); reflexivity.
  - destruct (_ || _); [exact IH |].
    destruct (String.eqb _ DONE); [reflexivity |].
    rewrite IH. destruct (for_lines JSON_parse xs) as [evs ret]. cbn [fst snd].
    destruct ret; cbn [fst snd]; [reflexivity |].
    rewrite app_assoc. reflexivity.
Qed.

(** The decoder sees the stream, not the chunking: whatever buffer it
    carries and however the rest arrives, it decodes the complete lines of
    the whole text. *)
Lemma read_loop_text (chunks : list string) (buffer : string) :
  one_line buffer ->
  read_loop JSON_parse buffer chunks
  = (for_lines JSON_parse (removelast (split newline (buffer +:+ joined chunks)))).1 ++ [ReleaseLock].
Proof.
  revert buffer. induction chunks as [| chunk later IH]; intros buffer Hbuf.
  - cbn [joined foldr read_loop]. rewrite str_app_nil_r.
    rewrite (split_one_line _ Hbuf). reflexivity.
  - cbn [joined foldr]. fold (joined later).
    rewrite <- str_app_assoc, (split_app newline (buffer +:+ chunk)).
    rewrite removelast_app by apply split_not_nil.
    rewrite for_lines_app.
    cbn [read_loop].
    destruct (for_lines JSON_parse (removelast (split newline (buffer +:+ chunk)))) as [evs ret].
    cbn [fst snd]. destruct ret; [reflexivity |].
    rewrite IH by apply last_split_one_line.
    cbn [fst]. rewrite app_assoc. reflexivity.
Qed.

Lemma streamChatCompletion_text (chunks : list string) :
  streamChatCompletion JSON_parse chunks
  = (for_lines JSON_parse (removelast (split newline (joined chunks)))).1 ++ [ReleaseLock].
Proof. unfold streamChatCompletion. apply read_loop_text. reflexivity. Qed.

(** X8. Any two ways of cutting the same text into chunks decode alike:
    streamChatCompletion makes the same callback calls in the same order. *)
Lemma streamChatCompletion_chunking (chunks chunks' : list string) :
  joined chunks = joined chunks' ->
  streamChatCompletion JSON_parse chunks = streamChatCompletion JSON_parse chunks'.
Proof. intros H. rewrite !streamChatCompletion_text, H. reflexivity. Qed.

(** A stream of whole lines followed by an unfinished one: exactly the
    whole lines are decoded. *)
Lemma streamChatCompletion_lines (chunks : list string) (lines : list string) (partial : string) :
  Forall one_line lines -> one_line partial ->
  joined chunks = wire lines +:+ partial ->
  streamChatCompletion JSON_parse chunks = (for_lines JSON_parse lines).1 ++ [ReleaseLock].
Proof.
  intros Hlines Hpartial Htext.
  rewrite streamChatCompletion_text, Htext, (split_wire _ _ Hlines).
  rewrite (split_one_line _ Hpartial), removelast_last. reflexivity.
Qed.


Lemma chunks_emitted_app (xs ys : list stream_event) :
  chunks_emitted (xs ++ ys) = chunks_emitted xs ++ chunks_emitted ys.
Proof.
  induction xs as [| [] xs IH]; simpl; rewrite ?IH; reflexivity.
Qed.

Lemma trimEnd_cons (c : ascii) (s : string) :
  is_space c = false -> trimEnd (String c s) <> "".
Proof.
  intros Hc. cbn [trimEnd]. destruct (trimEnd s); [rewrite Hc |]; discriminate.
Qed.

(** A line that starts with the data prefix is not blank, so the first
    test of the loop never rejects it. *)
Lemma data_line_not_blank (line : string) :
  startsWith data_prefix line = true -> String.eqb (trim line) "" = false.
Proof.
  destruct line as [| c line]; [discriminate |].
  unfold data_prefix. cbn [startsWith]. intros [Hc _]%andb_true_iff.
  apply Ascii.eqb_eq in Hc. subst c.
  apply String.eqb_neq. unfold trim. cbn [trimStart].
  change (is_space "d") with false. cbv iota.
  apply trimEnd_cons. reflexivity.
Qed.

Lemma for_lines_skip (line : string) (rest : list string) :
  startsWith data_prefix line = false ->
  for_lines JSON_parse (line :: rest) = for_lines JSON_parse rest.
Proof. intros H. cbn [for_lines]. rewrite H, orb_true_r. reflexivity. Qed.

Lemma for_lines_data (line : string) (rest : list string) :
  startsWith data_prefix line = true ->
  for_lines JSON_parse (line :: rest)
  = if String.eqb (str_slice 6 line) DONE then ([OnComplete], true)
    else (decode_frame JSON_parse (str_slice 6 line) ++ (for_lines JSON_parse rest).1,
          (for_lines JSON_parse rest).2).
Proof.
  intros H. cbn [for_lines]. rewrite H, (data_line_not_blank _ H). cbn [negb orb].
  destruct (String.eqb _ DONE); [reflexivity |].
  destruct (for_lines JSON_parse rest); reflexivity.
Qed.

Lemma for_lines_done (rest : list string) :
  for_lines JSON_parse (data_line DONE :: rest) = ([OnComplete], true).
Proof. reflexivity. Qed.

(** X9. The terminator ends decoding: the lines after it, the rest of
    the chunk and all later chunks leave no trace; onComplete is the last
    callback and the lock is released. *)
Lemma streamChatCompletion_stops_at_DONE
    (chunks : list string) (before after : list string) (partial : string) :
  Forall one_line (before ++ data_line DONE :: after) -> one_line partial ->
  joined chunks = wire (before ++ data_line DONE :: after) +:+ partial ->
  (for_lines JSON_parse before).2 = false ->
  streamChatCompletion JSON_parse chunks
  = (for_lines JSON_parse before).1 ++ [OnComplete; ReleaseLock].
Proof.
  intros Hlines Hpartial Htext Hbefore.
  rewrite (streamChatCompletion_lines _ _ _ Hlines Hpartial Htext).
  rewrite for_lines_app, Hbefore, for_lines_done. cbn [fst].
  rewrite <- app_assoc. reflexivity.
Qed.

Lemma decode_frame_malformed (data : string) (e : error) :
  malformed JSON_parse data e -> decode_frame JSON_parse data = [ParseError e].
Proof. intros [_ H]. unfold decode_frame. rewrite H. reflexivity. Qed.

Lemma for_lines_malformed (bad : string) (e : error) (rest : list string) :
  startsWith data_prefix bad = true ->
  malformed JSON_parse (str_slice 6 bad) e ->
  for_lines JSON_parse (bad :: rest)
  = (ParseError e :: (for_lines JSON_parse rest).1, (for_lines JSON_parse rest).2).
Proof.
  intros Hdata Hbad. rewrite (for_lines_data _ _ Hdata).
  destruct Hbad as [Hne Hthrow].
  apply String.eqb_neq in Hne. rewrite Hne.
  rewrite (decode_frame_malformed _ e) by (split; [apply String.eqb_neq |]; assumption).
  reflexivity.
Qed.

(** C8. A data line whose payload fails to parse, sent between other
    lines of a stream that is cut into chunks in any way: the decoder
    reports one parse error for it and goes on; the deltas it emits are
    those of the lines before it followed by those of the lines after it,
    the same as for the stream without that line, and it leaves by the
    normal exit. *)
Theorem malformed_frame_does_not_halt
    (chunks : list string) (before after : list string) (bad : string) (e : error) :
  Forall one_line (before ++ bad :: after) ->
  joined chunks = wire (before ++ bad :: after) ->
  (for_lines JSON_parse before).2 = false ->
  startsWith data_prefix bad = true ->
  malformed JSON_parse (str_slice 6 bad) e ->
  streamChatCompletion JSON_parse chunks
    = (for_lines JSON_parse before).1 ++ [ParseError e]
      ++ (for_lines JSON_parse after).1 ++ [ReleaseLock] /\
  chunks_emitted (streamChatCompletion JSON_parse chunks)
    = chunks_emitted (for_lines JSON_parse before).1
      ++ chunks_emitted (for_lines JSON_parse after).1 /\
  chunks_emitted (streamChatCompletion JSON_parse chunks)
    = chunks_emitted (streamChatCompletion JSON_parse [wire (before ++ after)]).
Proof.
  intros Hlines Htext Hbefore Hdata Hbad.
  assert (Hrun : streamChatCompletion JSON_parse chunks
                 = (for_lines JSON_parse before).1 ++ [ParseError e]
                   ++ (for_lines JSON_parse after).1 ++ [ReleaseLock]).
  { rewrite (streamChatCompletion_lines chunks (before ++ bad :: after) "" Hlines eq_refl)
      by (rewrite str_app_nil_r; exact Htext).
    rewrite for_lines_app, Hbefore, (for_lines_malformed _ _ _ Hdata Hbad). cbn [fst].
    rewrite <- !app_assoc. reflexivity. }
  assert (Hclean : streamChatCompletion JSON_parse [wire (before ++ after)]
                   = (for_lines JSON_parse before).1 ++ (for_lines JSON_parse after).1
                     ++ [ReleaseLock]).
  { rewrite (streamChatCompletion_lines _ (before ++ after) "").
    - rewrite for_lines_app, Hbefore. cbn [fst]. rewrite <- app_assoc. reflexivity.
    - apply Forall_app in Hlines as [Hb Ha]. inversion Ha; subst.
      apply Forall_app; split; assumption.
    - reflexivity.
    - cbn [joined foldr]. reflexivity. }
  split; [exact Hrun |].
  rewrite Hrun, Hclean, !chunks_emitted_app. cbn [chunks_emitted].
  rewrite !app_nil_r. split; reflexivity.
Qed.

End StreamDecoder.

(** A last line that the server did not end with a line feed stays in
    the buffer when the reader reports done: it is never decoded. *)
Example unterminated_last_line :
  streamChatCompletion delta_only_parse
    [data_line (delta_payload "He") +:+ nl +:+ data_line (delta_payload "llo")]
  = [OnChunk (VStr "He"); ReleaseLock].
Proof. vm_compute. reflexivity. Qed.

Lemma malformed_frame_does_not_halt_witness :
  chunks_emitted
    (streamChatCompletion delta_only_parse
       [data_line (delta_payload "He") +:+ nl +:+ "data: {oo";
        "ps" +:+ nl +:+ "data: " +:+ delta_payload "llo" +:+ nl;
        data_line DONE +:+ nl])
  = [VStr "He"; VStr "llo"].
Proof.
  destruct (malformed_frame_does_not_halt delta_only_parse
              [data_line (delta_payload "He") +:+ nl +:+ "data: {oo";
               "ps" +:+ nl +:+ "data: " +:+ delta_payload "llo" +:+ nl;
               data_line DONE +:+ nl]
              [data_line (delta_payload "He")]
              [data_line (delta_payload "llo"); data_line DONE]
              "data: {oops" SyntaxError) as (_ & Hemitted & _).
  - repeat constructor.
  - vm_compute. reflexivity.
  - vm_compute. reflexivity.
  - vm_compute. reflexivity.
  - split; [discriminate | vm_compute; reflexivity].
  - rewrite Hemitted. vm_compute. reflexivity.
Defined.

Section FullMessage.

Variable JSON_parse : string -> option value.

Lemma startsWith_app (p s : string) : startsWith p (p +:+ s) = true.
Proof.
  induction p as [| c p IH]; [reflexivity |].
  rewrite str_app_cons. cbn [startsWith]. rewrite Ascii.eqb_refl, IH. reflexivity.
Qed.

Lemma text_of_app (xs ys : list value) : text_of (xs ++ ys) = text_of xs +:+ text_of ys.
Proof.
  induction xs as [| [] xs IH]; cbn [app text_of]; rewrite ?IH, ?str_app_assoc; reflexivity.
Qed.

Lemma decode_frame_delta (txt : string) :
  JSON_parse (delta_payload txt) = Some (delta_value txt) ->
  text_of (chunks_emitted (decode_frame JSON_parse (delta_payload txt))) = txt.
Proof.
  intros Hparse. unfold decode_frame, parse. rewrite Hparse.
  change (delta_content (delta_value txt)) with (Normal (VStr txt)).
  cbn [mbind completion_bind truthy].
  destruct txt as [| c txt]; [reflexivity |].
  cbn [String.eqb negb chunks_emitted text_of]. apply str_app_nil_r.
Qed.

(** The text decoded from the rendered frames is the message they carry. *)
Lemma for_lines_full_message (frames : list frame) :
  Forall (well_formed JSON_parse) frames ->
  text_of (chunks_emitted (for_lines JSON_parse (map render frames)).1) = full_message frames.
Proof.
  induction 1 as [| f frames [_ Hf] _ IH]; [reflexivity |].
  destruct f as [txt | | line]; cbn [map render full_message].
  - rewrite for_lines_data by apply startsWith_app.
    change (str_slice 6 (data_line (delta_payload txt))) with (delta_payload txt).
    change (String.eqb (delta_payload txt) DONE) with false. cbv iota. cbn [fst].
    rewrite chunks_emitted_app, text_of_app, (decode_frame_delta _ Hf), IH. reflexivity.
  - reflexivity.
  - rewrite for_lines_skip by exact Hf. exact IH.
Qed.

(** X10. streamChatCompletion, on the frames of a response cut into
    chunks in any way (also inside a line), with or without an unfinished
    line at the end: the emitted deltas concatenate to the message the
    frames carry up to the terminator. *)
Lemma streamChatCompletion_full_message
    (chunks : list string) (frames : list frame) (partial : string) :
  Forall (well_formed JSON_parse) frames -> one_line partial ->
  joined chunks = wire (map render frames) +:+ partial ->
  text_of (chunks_emitted (streamChatCompletion JSON_parse chunks)) = full_message frames.
Proof.
  intros Hframes Hpartial Htext.
  rewrite (streamChatCompletion_lines JSON_parse chunks (map render frames) partial).
  - rewrite chunks_emitted_app, text_of_app. cbn [chunks_emitted text_of].
    rewrite str_app_nil_r. apply for_lines_full_message. exact Hframes.
  - apply Forall_map. eapply Forall_impl; [exact Hframes |]. intros f [Hline _]. exact Hline.
  - exact Hpartial.
  - exact Htext.
Qed.

(** *** generateResponse *)

(** The terminator only changes the status text; the loop goes on. *)
Lemma page_lines_done (rest : list string) :
  page_lines JSON_parse (data_line DONE :: rest)
  = StatusText "Complete" :: page_lines JSON_parse rest.
Proof. reflexivity. Qed.

(** C3. Code: generateResponse does not stop at the terminator.  On the
    single chunk [data: [DONE]], [data: <delta "late">] it sets the status
    to Complete and then still decodes the next frame and appends its
    delta to the page, whereas streamChatCompletion, given the same chunk,
    calls onComplete and returns without emitting anything. *)
Theorem generateResponse_continues_after_DONE :
  JSON_parse (delta_payload "late") = Some (delta_value "late") ->
  generateResponse JSON_parse "hi" [wire [data_line DONE; data_line (delta_payload "late")]]
    = [StatusText "Generating..."; ResponseText ""; StatusText "Complete";
       ResponseAppend (VStr "late")] /\
  streamChatCompletion JSON_parse [wire [data_line DONE; data_line (delta_payload "late")]]
    = [OnComplete; ReleaseLock].
Proof.
  intros Hparse. vm_compute in Hparse. split.
  - vm_compute. rewrite Hparse. reflexivity.
  - reflexivity.
Qed.

(** C4. Code: generateResponse decodes every chunk on its own and keeps
    no partial line.  When the frames He, llo, [DONE] arrive in two chunks
    cut inside the second line, both halves of that line are thrown away
    and the page shows He; streamChatCompletion, given the same chunks,
    emits He and llo. *)
Theorem generateResponse_loses_split_line :
  JSON_parse (delta_payload "He") = Some (delta_value "He") ->
  JSON_parse (delta_payload "llo") = Some (delta_value "llo") ->
  let chunks := [data_line (delta_payload "He") +:+ nl +:+ "da";
                 "ta: " +:+ delta_payload "llo" +:+ nl +:+ data_line DONE +:+ nl] in
  joined chunks = wire (map render [Delta "He"; Delta "llo"; Terminator]) /\
  full_message [Delta "He"; Delta "llo"; Terminator] = "Hello" /\
  text_of (appended (generateResponse JSON_parse "hi" chunks)) = "He" /\
  text_of (chunks_emitted (streamChatCompletion JSON_parse chunks)) = "Hello".
Proof.
  intros HHe Hllo chunks. vm_compute in HHe, Hllo.
  split; [vm_compute; reflexivity |].
  split; [reflexivity |].
  split.
  - vm_compute. rewrite HHe. reflexivity.
  - vm_compute. rewrite HHe, Hllo. reflexivity.
Qed.

End FullMessage.

Lemma generateResponse_continues_after_DONE_witness :
  appended (generateResponse delta_only_parse "hi"
              [wire [data_line DONE; data_line (delta_payload "late")]])
  = [VStr "late"].
Proof.
  destruct (generateResponse_continues_after_DONE delta_only_parse) as [Hpage _].
  - vm_compute. reflexivity.
  - rewrite Hpage. reflexivity.
Defined.

Lemma generateResponse_loses_split_line_witness :
  text_of (appended (generateResponse delta_only_parse "hi"
             [data_line (delta_payload "He") +:+ nl +:+ "da";
              "ta: " +:+ delta_payload "llo" +:+ nl +:+ data_line DONE +:+ nl]))
  = "He".
Proof.
  destruct (generateResponse_loses_split_line delta_only_parse) as (_ & _ & Hpage & _).
  - vm_compute. reflexivity.
  - vm_compute. reflexivity.
  - exact Hpage.
Defined.

(** ** Image response normalisation *)

Section ImageShapes.

Variables (apiKey base64Image : string).

(** The card application script answers each documented shape with an
    image reference. *)
Lemma CardApp_binary_image :
  returned (CardApp.generateStylizedImage apiKey base64Image (Resolved binary_image))
  = Normal (ObjectURL binary_image).
Proof. reflexivity. Qed.

Lemma CardApp_direct_url (u : string) :
  u <> "" ->
  returned (CardApp.generateStylizedImage apiKey base64Image (Resolved (ok_json (direct_url u))))
  = Normal (Field (VStr u)).
Proof. destruct u; [contradiction | reflexivity]. Qed.

Lemma CardApp_nested_url (u : string) :
  u <> "" ->
  returned (CardApp.generateStylizedImage apiKey base64Image (Resolved (ok_json (nested_url u))))
  = Normal (Field (VStr u)).
Proof. destruct u; [contradiction | reflexivity]. Qed.

Lemma CardApp_nested_b64 (b : string) :
  b <> "" ->
  returned (CardApp.generateStylizedImage apiKey base64Image (Resolved (ok_json (nested_b64 b))))
  = Normal (PngDataURI (VStr b)).
Proof. destruct b; [contradiction | reflexivity]. Qed.

Lemma CardApp_inline_image (b : string) :
  b <> "" ->
  returned (CardApp.generateStylizedImage apiKey base64Image (Resolved (ok_json (inline_image b))))
  = Normal (PngDataURI (VStr b)).
Proof. destruct b; [contradiction | reflexivity]. Qed.

(** X20. A 2xx JSON response whose body is an object with none of the
    fields data, url, image set (to a truthy value): the card application
    script logs the body and throws its explicit error. *)
Lemma CardApp_unrecognized_object (r : Response) (props : list (string * value)) :
  ok r = true -> CardApp.is_binary_image r = false -> json r = Some (VObj props) ->
  truthy (own props "data") = false ->
  truthy (own props "url") = false ->
  truthy (own props "image") = false ->
  returned (CardApp.generateStylizedImage apiKey base64Image (Resolved r))
    = Throw CardApp.unrecognized /\
  console (CardApp.generateStylizedImage apiKey base64Image (Resolved r)) = [VObj props].
Proof.
  intros Hok Hbin Hjson Hdata Hurl Himage.
  unfold CardApp.generateStylizedImage, response_json.
  rewrite Hok, Hbin, Hjson. cbn [negb].
  assert (Hnorm : CardApp.normalize (VObj props) = Normal None).
  { unfold CardApp.normalize, CardApp.nested, and_then.
    cbn [get mbind completion_bind]. rewrite Hdata. cbn [mbind completion_bind].
    rewrite Hdata, Hurl, Himage. reflexivity. }
  rewrite Hnorm. split; reflexivity.
Qed.

Lemma nested_truthy (data c : value) (field : string) :
  CardApp.nested data field = Normal c -> truthy c = true ->
  exists d first,
    get data "data" = Normal d /\ get0 d = Normal first /\ get first field = Normal c.
Proof.
  unfold CardApp.nested. destruct (get data "data") as [d | e] eqn:Hget; [| discriminate].
  cbn [mbind completion_bind]. unfold and_then.
  destruct (truthy d) eqn:Hd; [| intros [= <-] Hc; congruence].
  destruct (get0 d) as [first | e] eqn:Hfirst; [| discriminate].
  cbn [mbind completion_bind]. intros H _.
  exists d, first. repeat split; assumption.
Qed.

(** Whatever the body, the card application script never hands back an
    empty reference: it returns a truthy field or it throws. *)
Lemma CardApp_normalize_truthy (data : value) (ref : image_ref) :
  CardApp.normalize data = Normal (Some ref) ->
  match ref with
  | ObjectURL _ => False
  | Field v | PngDataURI v => truthy v = true
  end.
Proof.
  unfold CardApp.normalize.
  destruct (CardApp.nested data "url") as [c1 | e1] eqn:H1; [| discriminate].
  cbn [mbind completion_bind].
  destruct (truthy c1) eqn:T1.
  { destruct (nested_truthy _ _ _ H1 T1) as (d & first & Hd & Hfirst & Hfield).
    rewrite Hd. cbn [mbind completion_bind].
    rewrite Hfirst. cbn [mbind completion_bind].
    rewrite Hfield. cbn [mbind completion_bind].
    intros [= <-]. exact T1. }
  destruct (CardApp.nested data "b64_json") as [c2 | e2] eqn:H2; [| discriminate].
  cbn [mbind completion_bind].
  destruct (truthy c2) eqn:T2.
  { destruct (nested_truthy _ _ _ H2 T2) as (d & first & Hd & Hfirst & Hfield).
    rewrite Hd. cbn [mbind completion_bind].
    rewrite Hfirst. cbn [mbind completion_bind].
    rewrite Hfield. cbn [mbind completion_bind].
    intros [= <-]. exact T2. }
  destruct (get data "url") as [url | e3]; [| discriminate].
  cbn [mbind completion_bind].
  destruct (truthy url) eqn:T3; [intros [= <-]; exact T3 |].
  destruct (get data "image") as [image | e4]; [| discriminate].
  cbn [mbind completion_bind].
  destruct (truthy image) eqn:T4; [intros [= <-]; exact T4 | discriminate].
Qed.

(** script.js on the shapes it knows. *)
Lemma ScriptJs_direct_url (u : string) :
  u <> "" ->
  returned (ScriptJs.generateStylizedImage apiKey base64Image (Resolved (ok_json (direct_url u))))
  = Normal (VStr u).
Proof. destruct u; [contradiction | reflexivity]. Qed.

Lemma ScriptJs_nested_url (u : string) :
  u <> "" ->
  returned (ScriptJs.generateStylizedImage apiKey base64Image (Resolved (ok_json (nested_url u))))
  = Normal (VStr u).
Proof. destruct u; [contradiction | reflexivity]. Qed.

(** script.js on the two shapes it does not know. *)
Lemma ScriptJs_binary_image :
  returned (ScriptJs.generateStylizedImage apiKey base64Image (Resolved binary_image))
  = Throw SyntaxError.
Proof. reflexivity. Qed.

Lemma ScriptJs_nested_b64 (b : string) :
  returned (ScriptJs.generateStylizedImage apiKey base64Image (Resolved (ok_json (nested_b64 b))))
  = Normal VUndefined.
Proof. reflexivity. Qed.

(** An empty data array makes both variants fail on the property read
    before any shape test completes; nothing is logged. *)
Example empty_data_array :
  returned (CardApp.generateStylizedImage apiKey base64Image
              (Resolved (ok_json (VObj [("data", VArr [])])))) = Throw TypeError /\
  console (CardApp.generateStylizedImage apiKey base64Image
             (Resolved (ok_json (VObj [("data", VArr [])])))) = [] /\
  returned (ScriptJs.generateStylizedImage apiKey base64Image
              (Resolved (ok_json (VObj [("data", VArr [])])))) = Throw TypeError.
Proof. repeat split. Qed.

(** C6. Code: script.js has no branch for an unrecognised body.  On a
    200 response whose JSON body is the empty object it returns undefined
    and writes nothing to the console, whereas the card application script
    logs the body and throws its explicit error on the same response. *)
Theorem ScriptJs_unrecognized_shape_returns_undefined :
  returned (ScriptJs.generateStylizedImage apiKey base64Image (Resolved (ok_json (VObj []))))
    = Normal VUndefined /\
  console (ScriptJs.generateStylizedImage apiKey base64Image (Resolved (ok_json (VObj []))))
    = [] /\
  returned (CardApp.generateStylizedImage apiKey base64Image (Resolved (ok_json (VObj []))))
    = Throw CardApp.unrecognized /\
  console (CardApp.generateStylizedImage apiKey base64Image (Resolved (ok_json (VObj []))))
    = [VObj []].
Proof. repeat split. Qed.

End ImageShapes.

(** * Further properties *)

(** ** callVeniceAPI: what holds for every script of responses *)

Section RetryLaws.

Variables (endpoint : string) (body : value).

Lemma try_body_returns (retryCount : Z) (net : fetch_result) (evs : list api_event) (v : value) :
  try_body endpoint body retryCount net = (evs, Returns v) ->
  exists r, net = Resolved r /\ ok r = true /\ json r = Some v.
Proof.
  destruct net as [| r]; [discriminate |]. unfold try_body, response_json.
  destruct (ok r) eqn:Hok; cbn [negb].
  - destruct (json r) as [w |] eqn:Hjson; [| discriminate].
    intros [= _ <-]. exists r. repeat split; assumption.
  - destruct (json r) as [w |]; [| discriminate].
    destruct (status r =? 429); [discriminate |].
    destruct (status r =? 401); [discriminate |].
    destruct (_ ≫= _); discriminate.
Qed.

(** The timers one pass through the try block sets: the exponential one
    when it ends in [continue], none otherwise. *)
Lemma try_body_waits (retryCount : Z) (net : fetch_result) :
  waits (try_body endpoint body retryCount net).1
  = match (try_body endpoint body retryCount net).2 with
    | Continues => [Z.min (2 ^ retryCount * 1000) 60000]
    | _ => []
    end.
Proof.
  destruct net as [| r]; [reflexivity |]. unfold try_body.
  destruct (rate_limit_check_silent r) as [_ W].
  destruct (negb (ok r)).
  - destruct (response_json r) as [err | e]; cbn [fst snd waits]; [| exact W].
    destruct (status r =? 429); cbn [fst snd waits].
    + rewrite waits_app. cbn [waits]. rewrite W. reflexivity.
    + destruct (status r =? 401); cbn [fst snd waits]; [exact W |].
      destruct (_ ≫= _); cbn [fst snd waits]; exact W.
  - destruct (response_json r); cbn [fst snd waits]; exact W.
Qed.

(** X1. Whatever the responses are, callVeniceAPI sends at most three
    requests. *)
Theorem callVeniceAPI_at_most_three_attempts (responses : list fetch_result) :
  (attempts (callVeniceAPI endpoint body responses) <= 3)%nat.
Proof.
  pose proof (retry_loop_cap endpoint body responses 0 ltac:(lia)) as H.
  unfold callVeniceAPI, maxRetries in *. lia.
Qed.

Lemma retry_loop_throws (responses : list fetch_result) (retryCount : Z) (e : error) :
  0 <= retryCount ->
  settled (retry_loop endpoint body retryCount responses) = Some (Throw e) ->
  Z.of_nat (attempts (retry_loop endpoint body retryCount responses))
    = maxRetries - retryCount /\
  exists net,
    responses !! Z.to_nat (maxRetries - 1 - retryCount) = Some net /\
    (try_body endpoint body (maxRetries - 1) net).2 = Caught e.
Proof.
  revert retryCount.
  induction responses as [| net rest IH]; intros k Hk.
  - simpl. destruct (k <? maxRetries); discriminate.
  - rewrite retry_loop_cons.
    destruct (Z.ltb_spec k maxRetries) as [Hlt | Hge]; [| discriminate].
    pose proof (try_body_one_fetch endpoint body k net) as Hone.
    destruct (try_body endpoint body k net) as [evs [v | | err]] eqn:Htry;
      cbn [fst] in Hone.
    + discriminate.
    + rewrite settled_before, attempts_before, Hone. intros Hs.
      assert (Hnext : k + 1 < maxRetries).
      { destruct (Z.ltb_spec (k + 1) maxRetries) as [| Hge]; [assumption |].
        rewrite retry_loop_exhausted in Hs by exact Hge. discriminate. }
      destruct (IH (k + 1) ltac:(lia) Hs) as (Hn & net' & Hat & Hc).
      split; [lia |]. exists net'. split; [| exact Hc].
      replace (Z.to_nat (maxRetries - 1 - k))
        with (S (Z.to_nat (maxRetries - 1 - (k + 1)))) by lia.
      exact Hat.
    + destruct (Z.eqb_spec k (maxRetries - 1)) as [-> | Hne].
      * cbn [settled]. intros [= <-]. unfold attempts. cbn [trace]. rewrite Hone.
        split; [unfold maxRetries; lia |].
        exists net. replace (maxRetries - 1 - (maxRetries - 1)) with 0 by lia.
        split; [reflexivity |]. rewrite Htry. reflexivity.
      * rewrite settled_before, attempts_before, fetches_app, Hone. intros Hs.
        destruct (IH (k + 1) ltac:(lia) Hs) as (Hn & net' & Hat & Hc).
        split; [simpl; lia |]. exists net'. split; [| exact Hc].
        replace (Z.to_nat (maxRetries - 1 - k))
          with (S (Z.to_nat (maxRetries - 1 - (k + 1)))) by lia.
        exact Hat.
Qed.

(** X2. callVeniceAPI never fails early: when it rejects with an error,
    it has sent exactly three requests and the error is the one its third
    attempt ran into; no response to the first two attempts, whatever its
    status, ends the call with an error. *)
Theorem callVeniceAPI_throws_only_from_third_attempt
    (responses : list fetch_result) (e : error) :
  settled (callVeniceAPI endpoint body responses) = Some (Throw e) ->
  attempts (callVeniceAPI endpoint body responses) = 3%nat /\
  exists third, responses !! 2%nat = Some third /\
                (try_body endpoint body 2 third).2 = Caught e.
Proof.
  intros Hs. unfold callVeniceAPI in *.
  destruct (retry_loop_throws responses 0 e ltac:(lia) Hs) as (Hn & net & Hat & Hc).
  split; [unfold maxRetries in Hn; lia |].
  exists net. split; assumption.
Qed.

Lemma retry_loop_returns (responses : list fetch_result) (retryCount : Z) (v : value) :
  settled (retry_loop endpoint body retryCount responses) = Some (Normal v) ->
  v = VUndefined \/
  exists r, In (Resolved r) responses /\ ok r = true /\ json r = Some v.
Proof.
  revert retryCount.
  induction responses as [| net rest IH]; intros k.
  - simpl. destruct (k <? maxRetries); [discriminate |]. intros [= <-]. left. reflexivity.
  - rewrite retry_loop_cons.
    destruct (k <? maxRetries); [| intros [= <-]; left; reflexivity].
    destruct (try_body endpoint body k net) as [evs [w | | err]] eqn:Htry.
    + cbn [settled]. intros [= <-]. right.
      destruct (try_body_returns _ _ _ _ Htry) as (r & -> & Hok & Hjson).
      exists r. split; [left; reflexivity | split; assumption].
    + rewrite settled_before. intros Hs.
      destruct (IH _ Hs) as [-> | (r & Hin & Hr)]; [left; reflexivity |].
      right. exists r. split; [right; exact Hin | exact Hr].
    + destruct (k =? maxRetries - 1); [discriminate |].
      rewrite settled_before. intros Hs.
      destruct (IH _ Hs) as [-> | (r & Hin & Hr)]; [left; reflexivity |].
      right. exists r. split; [right; exact Hin | exact Hr].
Qed.

(** X3. What callVeniceAPI resolves with is the JSON body of one of the
    2xx responses it received, or undefined; it never resolves with the
    body of an error response. *)
Theorem callVeniceAPI_returns_a_success_body (responses : list fetch_result) (v : value) :
  settled (callVeniceAPI endpoint body responses) = Some (Normal v) ->
  v = VUndefined \/
  exists r, In (Resolved r) responses /\ ok r = true /\ json r = Some v.
Proof. apply retry_loop_returns. Qed.

(** X4. A first response that is neither a 2xx with a JSON body nor a 429
    with a JSON body (a 401, 403 or 500, any status with a body that is not
    JSON) is not passed on to the caller: the call waits 1000 ms and sends
    the request again. *)
Theorem first_failure_is_retried (r : Response) (rest : list fetch_result) :
  (ok r = false /\ status r <> 429) \/ json r = None ->
  callVeniceAPI endpoint body (Resolved r :: rest)
  = before (FetchCall endpoint body :: rate_limit_check r ++ [Wait 1000])
           (retry_loop endpoint body 1 rest).
Proof.
  intros H. unfold callVeniceAPI. rewrite retry_loop_cons.
  change (0 <? maxRetries) with true. cbv iota.
  assert (Hcaught : exists e, try_body endpoint body 0 (Resolved r)
                              = (FetchCall endpoint body :: rate_limit_check r, Caught e)).
  { unfold try_body, response_json. destruct H as [[Hok Hst] | Hjson].
    - rewrite Hok. cbn [negb]. destruct (json r); [| eauto].
      destruct (Z.eqb_spec (status r) 429); [contradiction |].
      destruct (status r =? 401); [eauto |].
      destruct (_ ≫= _); eauto.
    - rewrite Hjson. destruct (negb (ok r)); eauto. }
  destruct Hcaught as [e ->]. reflexivity.
Qed.

End RetryLaws.

Lemma callVeniceAPI_throws_only_from_third_attempt_witness :
  attempts (callVeniceAPI "/chat/completions" VNull [r401; Rejected; r401]) = 3%nat.
Proof.
  destruct (callVeniceAPI_throws_only_from_third_attempt "/chat/completions" VNull
              [r401; Rejected; r401] invalid_api_key eq_refl) as [H _].
  exact H.
Defined.

Lemma callVeniceAPI_returns_a_success_body_witness :
  VObj [("id", VStr "ok")] = VUndefined \/
  exists r, In (Resolved r) [r429; r200] /\ ok r = true
            /\ json r = Some (VObj [("id", VStr "ok")]).
Proof.
  apply (callVeniceAPI_returns_a_success_body "/chat/completions" VNull [r429; r200] (VObj [("id", VStr "ok")])).
  reflexivity.
Defined.

Lemma first_failure_is_retried_witness :
  settled (callVeniceAPI "/chat/completions" VNull [error_response 500; r200])
  = Some (Normal (VObj [("id", VStr "ok")])).
Proof.
  unfold error_response.
  rewrite (first_failure_is_retried "/chat/completions" VNull (response_of 500 [] (error_body "Rate limit exceeded"))
             [r200]).
  - reflexivity.
  - left. split; [reflexivity | discriminate].
Defined.

Section RetryTiming.

Variables (endpoint : string) (body : value).

Lemma total_wait_app (xs ys : list api_event) :
  total_wait (xs ++ ys) = total_wait xs + total_wait ys.
Proof.
  unfold total_wait. rewrite waits_app.
  induction (waits xs) as [| w ws IH]; simpl in *; lia.
Qed.

Lemma retry_loop_wait_bound (responses : list fetch_result) (retryCount : Z) :
  0 <= retryCount <= maxRetries ->
  total_wait (trace (retry_loop endpoint body retryCount responses))
    <= 8000 - 2 ^ retryCount * 1000 /\
  Forall (fun w => 1000 <= w <= 4000)
         (waits (trace (retry_loop endpoint body retryCount responses))).
Proof.
  revert retryCount. unfold maxRetries.
  induction responses as [| net rest IH]; intros k Hk.
  - assert (Hpow : 2 ^ k * 1000 <= 8000).
    { assert (k = 0 \/ k = 1 \/ k = 2 \/ k = 3) as [-> | [-> | [-> | ->]]] by lia;
        simpl; lia. }
    simpl. destruct (k <? maxRetries); cbn; split; (lia || constructor).
  - rewrite retry_loop_cons.
    destruct (Z.ltb_spec k maxRetries) as [Hlt | Hge]; unfold maxRetries in *.
    2: { assert (k = 3) as -> by lia. cbn. split; [lia | constructor]. }
    pose proof (try_body_waits endpoint body k net) as Hw.
    destruct (IH (k + 1) ltac:(lia)) as [IHsum IHall].
    assert (Hpow : 2 ^ (k + 1) = 2 * 2 ^ k) by (rewrite Z.pow_add_r by lia; lia).
    assert (Hk3 : k = 0 \/ k = 1 \/ k = 2) by lia.
    destruct (try_body endpoint body k net) as [evs [v | | err]]; cbn [fst snd] in Hw.
    + cbn [trace]. unfold total_wait. rewrite Hw. cbn.
      split; [destruct Hk3 as [-> | [-> | ->]]; simpl; lia | constructor].
    + unfold before. cbn [trace]. rewrite total_wait_app, waits_app.
      assert (Hevs : total_wait evs = Z.min (2 ^ k * 1000) 60000)
        by (unfold total_wait; rewrite Hw; simpl; lia).
      rewrite Hevs, Hw. split.
      * destruct Hk3 as [-> | [-> | ->]]; simpl in *; lia.
      * constructor; [| exact IHall].
        destruct Hk3 as [-> | [-> | ->]]; simpl; lia.
    + assert (Hevs : total_wait evs = 0) by (unfold total_wait; rewrite Hw; reflexivity).
      destruct (Z.eqb_spec k (3 - 1)) as [-> | Hne].
      * cbn [trace]. rewrite Hevs, Hw. split; [simpl; lia | constructor].
      * unfold before. cbn [trace]. rewrite !total_wait_app, !waits_app, Hevs, Hw.
        change (total_wait [Wait (1000 * (k + 1))]) with (1000 * (k + 1) + 0).
        cbn [waits app]. split.
        -- destruct Hk3 as [-> | [-> | ->]]; simpl in *; lia.
        -- constructor; [| exact IHall].
           destruct Hk3 as [-> | [-> | ->]]; simpl; lia.
Qed.

(** X5. Whatever the responses are, each delay callVeniceAPI waits is
    between 1000 and 4000 ms and all its delays together are at most
    7000 ms: the 60000 ms cap of the backoff formula is never reached. *)
Theorem callVeniceAPI_waits_at_most_7000 (responses : list fetch_result) :
  total_wait (trace (callVeniceAPI endpoint body responses)) <= 7000 /\
  Forall (fun w => 1000 <= w <= 4000) (waits (trace (callVeniceAPI endpoint body responses))).
Proof.
  destruct (retry_loop_wait_bound responses 0 ltac:(unfold maxRetries; lia)) as [Hsum Hall].
  split; [simpl in Hsum; exact Hsum | exact Hall].
Qed.

Lemma try_body_fails (retryCount : Z) (net : fetch_result) :
  fails net ->
  exists evs e,
    try_body endpoint body retryCount net = (evs, Caught e) /\
    fetches evs = 1%nat /\ waits evs = [].
Proof.
  intros Hfail.
  pose proof (try_body_one_fetch endpoint body retryCount net) as Hone.
  pose proof (try_body_waits endpoint body retryCount net) as Hw.
  destruct net as [| r].
  - exists [FetchCall endpoint body], FetchFailed. repeat split.
  - assert (Hc : exists e, (try_body endpoint body retryCount (Resolved r)).2 = Caught e).
    { unfold try_body, response_json. destruct Hfail as [[Hok Hst] | Hjson].
      - rewrite Hok. cbn [negb]. destruct (json r); [| eauto].
        destruct (Z.eqb_spec (status r) 429); [contradiction |].
        destruct (status r =? 401); [eauto |].
        destruct (_ ≫= _); eauto.
      - rewrite Hjson. destruct (negb (ok r)); eauto. }
    destruct Hc as [e He].
    destruct (try_body endpoint body retryCount (Resolved r)) as [evs ending].
    cbn [fst snd] in *. subst ending. exists evs, e. repeat split; assumption.
Qed.

(** X6. Three attempts that fail otherwise than by a 429 with a JSON body
    (no response, an error status, a body that is not JSON): the call
    waits 1000 ms, then 2000 ms, and rejects with the error of the third
    attempt, having sent three requests. *)
Theorem three_failures_are_raised (n1 n2 n3 : fetch_result) (rest : list fetch_result) :
  fails n1 -> fails n2 -> fails n3 ->
  exists e,
    settled (callVeniceAPI endpoint body (n1 :: n2 :: n3 :: rest)) = Some (Throw e) /\
    (try_body endpoint body 2 n3).2 = Caught e /\
    attempts (callVeniceAPI endpoint body (n1 :: n2 :: n3 :: rest)) = 3%nat /\
    waits (trace (callVeniceAPI endpoint body (n1 :: n2 :: n3 :: rest))) = [1000; 2000].
Proof.
  intros H1 H2 H3.
  destruct (try_body_fails 0 n1 H1) as (evs1 & e1 & T1 & F1 & W1).
  destruct (try_body_fails (0 + 1) n2 H2) as (evs2 & e2 & T2 & F2 & W2).
  destruct (try_body_fails (0 + 1 + 1) n3 H3) as (evs3 & e3 & T3 & F3 & W3).
  exists e3. unfold callVeniceAPI.
  rewrite retry_loop_cons, T1, retry_loop_cons, T2, retry_loop_cons, T3.
  change (0 <? maxRetries) with true.
  change (0 + 1 <? maxRetries) with true.
  change (0 + 1 + 1 <? maxRetries) with true.
  change (0 =? maxRetries - 1) with false.
  change (0 + 1 =? maxRetries - 1) with false.
  change (0 + 1 + 1 =? maxRetries - 1) with true.
  cbv iota.
  rewrite !settled_before, !attempts_before, !waits_before, !fetches_app, !waits_app.
  unfold attempts. cbn [trace settled].
  rewrite F1, F2, F3, W1, W2, W3.
  change (0 + 1 + 1) with 2 in T3. rewrite T3.
  repeat split.
Qed.

End RetryTiming.

Lemma three_failures_are_raised_witness :
  settled (callVeniceAPI "/chat/completions" VNull
             [Rejected; error_response 500; error_response 403])
  = Some (Throw (Error [VStr "API Error ("; VNum (inject_Z 403); VStr "): ";
                        VStr "Rate limit exceeded"])).
Proof.
  destruct (three_failures_are_raised "/chat/completions" VNull
              Rejected (error_response 500) (error_response 403) [])
    as (e & Hs & He & _).
  - exact I.
  - left. split; [reflexivity | discriminate].
  - left. split; [reflexivity | discriminate].
  - rewrite Hs. vm_compute in He. injection He as <-. reflexivity.
Defined.

Section RetryTelemetry.

Variables (endpoint : string) (body : value).

Lemma control_flow_app (xs ys : list api_event) :
  control_flow (xs ++ ys) = control_flow xs ++ control_flow ys.
Proof.
  induction xs as [| [] xs IH]; simpl; rewrite ?IH; reflexivity.
Qed.

Lemma control_flow_rate_limit_check (r : Response) : control_flow (rate_limit_check r) = [].
Proof.
  unfold rate_limit_check.
  destruct (headers_get _ _) as [remaining |]; [| reflexivity].
  destruct (_ && _); reflexivity.
Qed.

(** The headers reach the try block through the warning only. *)
Lemma try_body_without_headers (retryCount : Z) (net : fetch_result) :
  try_body endpoint body retryCount (without_headers net)
  = (control_flow (try_body endpoint body retryCount net).1,
     (try_body endpoint body retryCount net).2).
Proof.
  destruct net as [| r]; [reflexivity |].
  unfold without_headers, try_body, response_json, ok. cbn [status json headers].
  change (rate_limit_check {| status := status r; headers := []; text := text r;
                              json := json r |}) with (@nil api_event).
  pose proof (control_flow_rate_limit_check r) as Hc.
  destruct (negb _).
  - destruct (json r) as [err |]; cbn [fst snd control_flow]; [| rewrite Hc; reflexivity].
    destruct (status r =? 429); cbn [fst snd control_flow].
    + rewrite control_flow_app. cbn [control_flow]. rewrite Hc. reflexivity.
    + destruct (status r =? 401); cbn [fst snd control_flow]; [rewrite Hc; reflexivity |].
      destruct (_ ≫= _); cbn [fst snd control_flow]; rewrite Hc; reflexivity.
  - destruct (json r); cbn [fst snd control_flow]; rewrite Hc; reflexivity.
Qed.

Lemma retry_loop_without_headers (responses : list fetch_result) (retryCount : Z) :
  retry_loop endpoint body retryCount (map without_headers responses)
  = {| trace := control_flow (trace (retry_loop endpoint body retryCount responses));
       settled := settled (retry_loop endpoint body retryCount responses) |}.
Proof.
  revert retryCount. induction responses as [| net rest IH]; intros k.
  - simpl. destruct (k <? maxRetries); reflexivity.
  - cbn [map]. rewrite !retry_loop_cons, try_body_without_headers.
    destruct (k <? maxRetries); [| reflexivity].
    destruct (try_body endpoint body k net) as [evs [v | | e]]; cbn [fst snd].
    + reflexivity.
    + rewrite IH. unfold before. cbn [trace settled].
      rewrite control_flow_app. reflexivity.
    + destruct (k =? maxRetries - 1); [reflexivity |].
      rewrite IH. unfold before. cbn [trace settled].
      rewrite !control_flow_app. reflexivity.
Qed.

(** X7. The response headers never steer callVeniceAPI: with every
    header removed from every response, the call settles the same way and
    does the same things in the same order (requests, log lines, waits);
    the only difference is that the low-rate-limit warnings are gone. *)
Theorem callVeniceAPI_headers_only_warn (responses : list fetch_result) :
  settled (callVeniceAPI endpoint body (map without_headers responses))
    = settled (callVeniceAPI endpoint body responses) /\
  trace (callVeniceAPI endpoint body (map without_headers responses))
    = control_flow (trace (callVeniceAPI endpoint body responses)).
Proof.
  unfold callVeniceAPI. rewrite retry_loop_without_headers. split; reflexivity.
Qed.

End RetryTelemetry.

(** ** streamChatCompletion: callbacks and the reader lock *)

Lemma streamChatCompletion_chunking_witness :
  streamChatCompletion delta_only_parse
    [data_line (delta_payload "He") +:+ nl +:+ "data: {"; str_slice 1 (delta_payload "llo") +:+ nl]
  = streamChatCompletion delta_only_parse
      [wire [data_line (delta_payload "He"); data_line (delta_payload "llo")]].
Proof.
  apply streamChatCompletion_chunking. vm_compute. reflexivity.
Defined.

Lemma streamChatCompletion_stops_at_DONE_witness :
  streamChatCompletion delta_only_parse
    [data_line (delta_payload "He") +:+ nl +:+ "data: [DO";
     "NE]" +:+ nl +:+ data_line (delta_payload "late") +:+ nl +:+ "data: {"]
  = [OnChunk (VStr "He"); OnComplete; ReleaseLock].
Proof.
  apply (streamChatCompletion_stops_at_DONE delta_only_parse _
           [data_line (delta_payload "He")] [data_line (delta_payload "late")] "data: {").
  - repeat constructor.
  - reflexivity.
  - vm_compute. reflexivity.
  - vm_compute. reflexivity.
Defined.

Lemma streamChatCompletion_full_message_witness :
  text_of (chunks_emitted
    (streamChatCompletion delta_only_parse
       [data_line (delta_payload "He") +:+ nl +:+ ": keep-alive" +:+ nl +:+ "data: {";
        str_slice 1 (delta_payload "llo") +:+ nl +:+ data_line DONE +:+ nl]))
  = "Hello".
Proof.
  apply (streamChatCompletion_full_message delta_only_parse _
           [Delta "He"; Noise ": keep-alive"; Delta "llo"; Terminator] "").
  - repeat constructor.
  - reflexivity.
  - vm_compute. reflexivity.
Defined.

Section StreamCallbacks.

Variable JSON_parse : string -> option value.

Lemma decode_frame_events (data : string) (ev : stream_event) :
  ev ∈ decode_frame JSON_parse data -> ev <> OnComplete /\ ev <> ReleaseLock.
Proof.
  unfold decode_frame. destruct (_ ≫= _) as [content | e].
  - destruct (truthy content).
    + intros ->%list_elem_of_singleton. split; discriminate.
    + intros H%elem_of_nil. destruct H.
  - intros ->%list_elem_of_singleton. split; discriminate.
Qed.

Lemma startsWith_split (p s : string) :
  startsWith p s = true -> s = p +:+ str_slice (String.length p) s.
Proof.
  revert s. induction p as [| c p IH]; intros s; [reflexivity |].
  destruct s as [| d s]; [discriminate |].
  cbn [startsWith]. intros [Hc Hs]%andb_true_iff.
  apply Ascii.eqb_eq in Hc. subst d.
  rewrite str_app_cons. cbn [String.length str_slice]. f_equal. apply IH. exact Hs.
Qed.

(** What the loop over the lines of a chunk produces: it never releases
    the lock itself, it calls onComplete exactly when it returns, as its
    last call, and it returns exactly when a line is [data: [DONE]]. *)
Lemma for_lines_events (lines : list string) :
  (ReleaseLock ∉ (for_lines JSON_parse lines).1) /\
  ((for_lines JSON_parse lines).2 = true <-> data_line DONE ∈ lines) /\
  if (for_lines JSON_parse lines).2
  then exists pre, (for_lines JSON_parse lines).1 = pre ++ [OnComplete] /\ OnComplete ∉ pre
  else OnComplete ∉ (for_lines JSON_parse lines).1.
Proof.
  induction lines as [| line rest (IHlock & IHret & IHdone)].
  - cbn. split; [apply not_elem_of_nil |].
    split; [split; [discriminate | intros H%elem_of_nil; destruct H] |].
    apply not_elem_of_nil.
  - destruct (startsWith data_prefix line) eqn:Hdata.
    + rewrite (for_lines_data _ _ _ Hdata).
      destruct (String.eqb_spec (str_slice 6 line) DONE) as [Hdone | Hother].
      * cbn [fst snd]. split; [intros [=]%list_elem_of_singleton |].
        split.
        -- split; [intros _ | reflexivity]. apply elem_of_cons. left.
           rewrite (startsWith_split _ _ Hdata). cbn [String.length data_prefix].
           change (String.length "data: ") with 6%nat. rewrite Hdone. reflexivity.
        -- exists []. split; [reflexivity | apply not_elem_of_nil].
      * cbn [fst snd].
        assert (Hline : line <> data_line DONE).
        { intros ->. apply Hother. reflexivity. }
        split.
        { intros [H | H]%elem_of_app; [| exact (IHlock H)].
          apply decode_frame_events in H. destruct H as [_ H]. contradiction. }
        split.
        { rewrite IHret. split; [intros H; apply elem_of_cons; right; exact H |].
          intros [H | H]%elem_of_cons; [symmetry in H; contradiction | exact H]. }
        destruct (for_lines JSON_parse rest).2.
        -- destruct IHdone as (pre & Hpre & Hnot).
           exists (decode_frame JSON_parse (str_slice 6 line) ++ pre).
           split; [rewrite Hpre, app_assoc; reflexivity |].
           intros [H | H]%elem_of_app; [| exact (Hnot H)].
           apply decode_frame_events in H. destruct H as [H _]. contradiction.
        -- intros [H | H]%elem_of_app; [| exact (IHdone H)].
           apply decode_frame_events in H. destruct H as [H _]. contradiction.
    + rewrite (for_lines_skip _ _ _ Hdata).
      split; [exact IHlock |]. split; [| exact IHdone].
      rewrite IHret. split; [intros H; apply elem_of_cons; right; exact H |].
      intros [H | H]%elem_of_cons; [| exact H].
      subst line. discriminate Hdata.
Qed.

(** X11. However the stream goes once the reader is obtained
    (terminated, cut off, with malformed frames), streamChatCompletion
    releases the reader lock exactly once, as the last thing it does. *)
Theorem streamChatCompletion_releases_lock_once (chunks : list string) :
  exists evs,
    streamChatCompletion JSON_parse chunks = evs ++ [ReleaseLock] /\ ReleaseLock ∉ evs.
Proof.
  exists (for_lines JSON_parse (complete_lines (joined chunks))).1.
  split; [apply streamChatCompletion_text |].
  apply for_lines_events.
Qed.

(** X12. onComplete is called exactly when one of the complete lines of
    the stream is [data: [DONE]]; it is then called once, as the last
    callback before the lock is released.  A stream that ends without
    that line ends without onComplete. *)
Theorem streamChatCompletion_onComplete (chunks : list string) :
  (data_line DONE ∈ complete_lines (joined chunks) ->
   exists pre, streamChatCompletion JSON_parse chunks = pre ++ [OnComplete; ReleaseLock]
               /\ OnComplete ∉ pre) /\
  (data_line DONE ∉ complete_lines (joined chunks) ->
   OnComplete ∉ streamChatCompletion JSON_parse chunks).
Proof.
  rewrite streamChatCompletion_text. fold (complete_lines (joined chunks)).
  destruct (for_lines_events (complete_lines (joined chunks))) as (_ & Hret & Hdone).
  split.
  - intros Hin. apply Hret in Hin. rewrite Hin in Hdone.
    destruct Hdone as (pre & -> & Hnot). exists pre.
    split; [rewrite <- app_assoc; reflexivity | exact Hnot].
  - intros Hnot.
    destruct (for_lines JSON_parse (complete_lines (joined chunks))).2.
    + destruct Hnot. apply Hret. reflexivity.
    + intros [H | H]%elem_of_app; [exact (Hdone H) |].
      apply list_elem_of_singleton in H. discriminate.
Qed.

(** X13. A line that does not start with [data: ] (a blank line, an SSE
    comment, an event or id field, an indented data line) changes nothing:
    the stream decodes as it does without that line. *)
Theorem streamChatCompletion_ignores_other_lines
    (chunks : list string) (before after : list string) (other partial : string) :
  Forall one_line (before ++ other :: after) -> one_line partial ->
  startsWith data_prefix other = false ->
  joined chunks = wire (before ++ other :: after) +:+ partial ->
  streamChatCompletion JSON_parse chunks
  = streamChatCompletion JSON_parse [wire (before ++ after) +:+ partial].
Proof.
  intros Hlines Hpartial Hother Htext.
  rewrite (streamChatCompletion_lines _ _ _ _ Hlines Hpartial Htext).
  rewrite (streamChatCompletion_lines _ _ (before ++ after) partial).
  - rewrite !for_lines_app, (for_lines_skip _ _ _ Hother). reflexivity.
  - apply Forall_app in Hlines as [Hb Ha]. inversion Ha; subst.
    apply Forall_app; split; assumption.
  - exact Hpartial.
  - cbn [joined foldr]. apply str_app_nil_r.
Qed.

End StreamCallbacks.

Lemma streamChatCompletion_onComplete_witness :
  OnComplete ∉ streamChatCompletion delta_only_parse
                 [data_line (delta_payload "He") +:+ nl +:+ data_line DONE].
Proof.
  apply streamChatCompletion_onComplete.
  vm_compute. intros H. apply list_elem_of_singleton in H. discriminate.
Defined.

Lemma streamChatCompletion_ignores_other_lines_witness :
  streamChatCompletion delta_only_parse
    [data_line (delta_payload "He") +:+ nl +:+ ": keep";
     "-alive" +:+ nl +:+ data_line (delta_payload "llo") +:+ nl]
  = [OnChunk (VStr "He"); OnChunk (VStr "llo"); ReleaseLock].
Proof.
  rewrite (streamChatCompletion_ignores_other_lines delta_only_parse _
             [data_line (delta_payload "He")] [data_line (delta_payload "llo")]
             ": keep-alive" "").
  - vm_compute. reflexivity.
  - repeat constructor.
  - reflexivity.
  - reflexivity.
  - vm_compute. reflexivity.
Defined.

(** ** generateResponse on chunks that end at line boundaries *)

Section AlignedChunks.

Variable JSON_parse : string -> option value.

Lemma trimEnd_app (a b : string) : trimEnd b <> "" -> trimEnd (a +:+ b) = a +:+ trimEnd b.
Proof.
  intros Hb. induction a as [| c a IH]; [reflexivity |].
  rewrite !str_app_cons. cbn [trimEnd]. rewrite IH.
  destruct (a +:+ trimEnd b) eqn:Heq; [| reflexivity].
  destruct a; [| discriminate]. contradiction.
Qed.

Lemma trim_data_line (payload : string) :
  trimEnd payload <> "" -> trim (data_line payload) = data_line (trimEnd payload).
Proof.
  intros H. unfold trim.
  change (trimStart (data_line payload)) with (data_line payload).
  apply trimEnd_app. exact H.
Qed.

Lemma render_passes_filter (f : frame) :
  is_noise f = false -> startsWith data_prefix (trim (render f)) = true.
Proof.
  destruct f as [txt | | line]; [| reflexivity | discriminate]. intros _.
  cbn [render]. rewrite trim_data_line; [apply startsWith_app |].
  apply trimEnd_cons. reflexivity.
Qed.

Lemma filter_rendered (frames : list frame) :
  Forall (fun f => is_noise f = false /\ well_formed JSON_parse f) frames ->
  filter (fun line => startsWith data_prefix (trim line) = true)
         (split newline (wire (map render frames)))
  = map render frames.
Proof.
  intros Hframes.
  rewrite <- (str_app_nil_r (wire _)), split_wire.
  - rewrite filter_app. change (filter _ (split newline "")) with (@nil string).
    rewrite app_nil_r.
    induction Hframes as [| f frames [Hf _] _ IH]; [reflexivity |].
    cbn [map]. rewrite filter_cons_True by (apply render_passes_filter; exact Hf).
    rewrite IH. reflexivity.
  - apply Forall_map. eapply Forall_impl; [exact Hframes |].
    intros f [_ [Hline _]]. exact Hline.
Qed.

Lemma appended_app (xs ys : list page_event) : appended (xs ++ ys) = appended xs ++ appended ys.
Proof.
  induction xs as [| [] xs IH]; simpl; rewrite ?IH; reflexivity.
Qed.

Lemma all_deltas_app (xs ys : list frame) : all_deltas (xs ++ ys) = all_deltas xs +:+ all_deltas ys.
Proof.
  induction xs as [| [] xs IH]; cbn [app all_deltas]; rewrite ?IH, ?str_app_assoc; reflexivity.
Qed.

Lemma page_lines_rendered (frames : list frame) :
  Forall (fun f => is_noise f = false /\ well_formed JSON_parse f) frames ->
  text_of (appended (page_lines JSON_parse (map render frames))) = all_deltas frames.
Proof.
  induction 1 as [| f frames [Hnoise [_ Hf]] _ IH]; [reflexivity |].
  destruct f as [txt | | line]; [| | discriminate].
  - cbn [map render page_lines all_deltas].
    change (remove_first data_prefix (data_line (delta_payload txt))) with (delta_payload txt).
    change (String.eqb (delta_payload txt) DONE) with false. cbv iota.
    unfold parse. rewrite Hf. cbn [mbind completion_bind].
    change (delta_content (delta_value txt)) with (Normal (VStr txt)).
    cbn [appended]. unfold or_else. cbn [truthy].
    destruct txt; cbn [String.eqb negb text_of]; rewrite IH; reflexivity.
  - cbn [map render all_deltas]. rewrite page_lines_done. exact IH.
Qed.

(** X14. When every chunk ends at a line boundary and the stream has data
    lines only, generateResponse gets the text right: what it appends to
    the page is the concatenation of all delta texts, those after a
    terminator included. *)
Theorem generateResponse_on_aligned_chunks (prompt : string) (groups : list (list frame)) :
  trim prompt <> "" ->
  Forall (Forall (fun f => is_noise f = false /\ well_formed JSON_parse f)) groups ->
  text_of (appended (generateResponse JSON_parse prompt
                       (map (fun group => wire (map render group)) groups)))
  = all_deltas (concat groups).
Proof.
  intros Hprompt Hgroups. unfold generateResponse.
  apply String.eqb_neq in Hprompt. rewrite Hprompt. cbn [appended].
  induction Hgroups as [| group groups Hgroup _ IH]; [reflexivity |].
  cbn [map page_loop concat].
  rewrite (filter_rendered _ Hgroup), appended_app, text_of_app, all_deltas_app, IH.
  rewrite (page_lines_rendered _ Hgroup). reflexivity.
Qed.

End AlignedChunks.

Lemma generateResponse_on_aligned_chunks_witness :
  text_of (appended (generateResponse delta_only_parse "hi"
             [wire [data_line (delta_payload "He"); data_line (delta_payload "l")];
              wire [data_line (delta_payload "lo"); data_line DONE]]))
  = "Hello".
Proof.
  apply (generateResponse_on_aligned_chunks delta_only_parse "hi"
           [[Delta "He"; Delta "l"]; [Delta "lo"; Terminator]]).
  - discriminate.
  - repeat constructor.
Defined.

(** ** VeniceConversation: calls in any order *)

Lemma call_keeps_bound (c : VeniceConversation) (op : conversation_call) :
  0 < maxHistory c ->
  Z.of_nat (length (messages c)) <= maxHistory c ->
  maxHistory (call c op) = maxHistory c /\
  apiKey (call c op) = apiKey c /\
  model (call c op) = model c /\
  Z.of_nat (length (messages (call c op))) <= maxHistory c.
Proof.
  intros Hmax Hlen.
  assert (Hadd : forall r v c', maxHistory c' = maxHistory c ->
            apiKey (addMessage r v c') = apiKey c' /\ model (addMessage r v c') = model c').
  { intros r v c' _. unfold addMessage. destruct (_ <? _); split; reflexivity. }
  destruct op as [r v | userMessage options net |]; cbn [call].
  - rewrite addMessage_maxHistory. destruct (Hadd r v c eq_refl) as [-> ->].
    repeat split. apply addMessage_bound. exact Hmax.
  - unfold send. destruct net as [| response]; cbn [after].
    + rewrite addMessage_maxHistory. destruct (Hadd "user" userMessage c eq_refl) as [-> ->].
      repeat split. apply addMessage_bound. exact Hmax.
    + destruct (_ ≫= _) as [assistantMessage | e]; cbn [after].
      * rewrite !addMessage_maxHistory.
        destruct (Hadd "assistant" assistantMessage (addMessage "user" userMessage c)
                    (addMessage_maxHistory _ _ _)) as [-> ->].
        destruct (Hadd "user" userMessage c eq_refl) as [-> ->].
        repeat split.
        rewrite <- (addMessage_maxHistory "user" userMessage c).
        apply addMessage_bound. rewrite addMessage_maxHistory. exact Hmax.
      * rewrite addMessage_maxHistory. destruct (Hadd "user" userMessage c eq_refl) as [-> ->].
        repeat split. apply addMessage_bound. exact Hmax.
  - repeat split. simpl. lia.
Qed.

(** X15. Whatever addMessage, send and clear calls are made on a
    VeniceConversation, in any order and with sends that succeed or fail
    in any way, the history never holds more than 20 messages, and the
    key, the model and maxHistory stay what the constructor made them. *)
Theorem conversation_bounded_under_all_calls
    (key mdl : string) (ops : list conversation_call) :
  let c := calls_from (constructor key mdl) ops in
  Z.of_nat (length (messages c)) <= 20 /\
  maxHistory c = 20 /\ apiKey c = key /\ model c = mdl.
Proof.
  intros c. unfold c, calls_from.
  induction ops as [| op ops IH] using rev_ind.
  - simpl. repeat split. lia.
  - rewrite fold_left_app. cbn [fold_left].
    destruct IH as (Hlen & Hmax & Hkey & Hmdl).
    destruct (call_keeps_bound (fold_left call ops (constructor key mdl)) op)
      as (Hmax' & Hkey' & Hmdl' & Hlen'); [lia | lia |].
    rewrite Hmax', Hkey', Hmdl'. rewrite Hmax in Hlen'. repeat split; assumption.
Qed.

(** X16. A send that succeeds returns choices[0].message.content of the
    response body and leaves the conversation with the user message and
    then the reply at its end, trimmed to the maxHistory most recent
    messages. *)
Theorem send_success_appends_exchange (c : VeniceConversation) (userMessage : value)
    (options : list (string * value)) (response : Response) (reply : value) :
  0 < maxHistory c ->
  (data ← response_json response; message_content data) = Normal reply ->
  result (send c userMessage options (Resolved response)) = Normal reply /\
  messages (after (send c userMessage options (Resolved response)))
  = most_recent (Z.to_nat (maxHistory c))
      (messages c ++ [{| role := "user"; content := userMessage |};
                      {| role := "assistant"; content := reply |}]).
Proof.
  intros Hmax Hreply. unfold send.
  change (data ← response_json response;
          choices ← get data "choices";
          first ← get0 choices;
          message ← get first "message";
          get message "content")
    with (data ← response_json response; message_content data).
  rewrite Hreply. cbn [result after]. split; [reflexivity |].
  rewrite addMessage_messages by (rewrite addMessage_maxHistory; exact Hmax).
  rewrite addMessage_maxHistory, addMessage_messages by exact Hmax.
  rewrite most_recent_snoc by lia.
  rewrite <- app_assoc. reflexivity.
Qed.

Lemma send_success_appends_exchange_witness :
  messages (after (send (constructor "key" default_model) (VStr "hello") []
                        (Resolved (response_of 200 []
                           (VObj [("choices",
                                   VArr [VObj [("message", VObj [("content", VStr "hi")])]])])))))
  = [{| role := "user"; content := VStr "hello" |};
     {| role := "assistant"; content := VStr "hi" |}].
Proof.
  destruct (send_success_appends_exchange (constructor "key" default_model) (VStr "hello") []
              (response_of 200 []
                 (VObj [("choices",
                         VArr [VObj [("message", VObj [("content", VStr "hi")])]])]))
              (VStr "hi")) as [_ H].
  - simpl. lia.
  - reflexivity.
  - rewrite H. reflexivity.
Defined.

(** X17. Nothing is pinned: once 20 further messages have been added, the
    first message of a conversation (a system prompt, say) is no longer
    part of the history, which is then the same as if that message had
    never been added. *)
Theorem conversation_forgets_oldest (key mdl : string) (m : Message) (calls : list Message) :
  (20 <= length calls)%nat ->
  messages (add_all (m :: calls) (constructor key mdl))
  = messages (add_all calls (constructor key mdl)).
Proof.
  intros Hlen.
  rewrite !add_all_messages by (simpl; lia).
  cbn [messages constructor maxHistory app]. unfold most_recent. cbn [length].
  replace (S (length calls) - Z.to_nat 20)%nat
    with (S (length calls - Z.to_nat 20)) by lia.
  reflexivity.
Qed.

Lemma conversation_forgets_oldest_witness :
  messages (add_all ({| role := "system"; content := VStr "Be brief." |}
                       :: replicate 20 {| role := "user"; content := VStr "again" |})
                    (constructor "key" default_model))
  = replicate 20 {| role := "user"; content := VStr "again" |}.
Proof.
  rewrite (conversation_forgets_oldest "key" default_model
             {| role := "system"; content := VStr "Be brief." |}
             (replicate 20 {| role := "user"; content := VStr "again" |})).
  - vm_compute. reflexivity.
  - simpl. lia.
Defined.

Lemma own_app (xs ys : list (string * value)) (name : string) :
  own (xs ++ ys) name = if bool_decide (name ∈ map fst xs) then own xs name else own ys name.
Proof.
  induction xs as [| [k v] xs IH]; [reflexivity |].
  cbn [app own map fst].
  destruct (String.eqb_spec k name) as [-> | Hne].
  - rewrite bool_decide_eq_true_2 by (apply elem_of_cons; left; reflexivity). reflexivity.
  - rewrite IH. destruct (bool_decide (name ∈ map fst xs)) eqn:Hin.
    + apply bool_decide_eq_true_1 in Hin.
      rewrite bool_decide_eq_true_2 by (apply elem_of_cons; right; exact Hin). reflexivity.
    + apply bool_decide_eq_false_1 in Hin.
      rewrite bool_decide_eq_false_2; [reflexivity |].
      intros [H | H]%elem_of_cons; [symmetry in H |]; contradiction.
Qed.

(** X18. The request of send carries the history with the user message
    in it unless the options bring a messages key of their own: the
    options are spread last, so their messages (and model) replace those
    of the conversation in the request, while the conversation itself
    still records the user message. *)
Theorem send_options_override (c : VeniceConversation) (userMessage : value)
    (options : list (string * value)) (net : fetch_result) (name : string) :
  name = "messages" \/ name = "model" ->
  literal_value (sent_body (send c userMessage options net)) name
  = if bool_decide (name ∈ map fst options) then literal_value options name
    else own [("model", VStr (model c));
              ("messages",
               VArr (map message_value (messages (addMessage "user" userMessage c))))] name.
Proof.
  intros Hname. rewrite send_appends_first. unfold literal_value.
  rewrite reverse_app, own_app.
  assert (Hkeys : name ∈ map fst (reverse options) <-> name ∈ map fst options).
  { rewrite !list_elem_of_In, !in_map_iff.
    split; intros (x & Hx & Hin); exists x; (split; [exact Hx |]);
      apply list_elem_of_In; apply list_elem_of_In in Hin.
    - exact (proj1 (elem_of_reverse _ _) Hin).
    - exact (proj2 (elem_of_reverse _ _) Hin). }
  destruct (bool_decide (name ∈ map fst options)) eqn:Hin.
  - apply bool_decide_eq_true_1 in Hin.
    rewrite bool_decide_eq_true_2 by (apply Hkeys; exact Hin). reflexivity.
  - apply bool_decide_eq_false_1 in Hin.
    rewrite bool_decide_eq_false_2 by (intros H; apply Hin, Hkeys; exact H).
    destruct Hname as [-> | ->]; reflexivity.
Qed.

Lemma send_options_override_witness :
  literal_value (sent_body (send (constructor "key" default_model) (VStr "hello")
                                 [("messages", VArr [])] Rejected)) "messages"
  = VArr [].
Proof.
  rewrite (send_options_override (constructor "key" default_model) (VStr "hello")
             [("messages", VArr [])] Rejected "messages").
  - reflexivity.
  - left. reflexivity.
Defined.

(** ** generateStylizedImage: what comes back *)

Lemma CardApp_unrecognized_object_witness :
  returned (CardApp.generateStylizedImage "key" "QUJD"
              (Resolved (ok_json (VObj [("id", VStr "img-1"); ("url", VStr "")]))))
  = Throw CardApp.unrecognized.
Proof.
  destruct (CardApp_unrecognized_object "key" "QUJD"
              (ok_json (VObj [("id", VStr "img-1"); ("url", VStr "")]))
              [("id", VStr "img-1"); ("url", VStr "")]) as [H _];
    [reflexivity .. | exact H].
Defined.

(** X19. The card application script never hands back an empty
    reference: when generateStylizedImage returns, it returns the object
    URL of a response whose content type names an image, or a field of the
    body that is truthy; in every other case it throws. *)
Theorem CardApp_returns_usable_reference
    (apiKey base64Image : string) (net : fetch_result) (ref : image_ref) :
  returned (CardApp.generateStylizedImage apiKey base64Image net) = Normal ref ->
  match ref with
  | ObjectURL r => net = Resolved r /\ ok r = true /\ CardApp.is_binary_image r = true
  | Field v | PngDataURI v => truthy v = true
  end.
Proof.
  unfold CardApp.generateStylizedImage.
  destruct net as [| response]; [discriminate |].
  destruct (ok response) eqn:Hok; cbn [negb]; [| discriminate].
  destruct (CardApp.is_binary_image response) eqn:Hbin.
  - cbn [returned]. intros [= <-]. repeat split; assumption.
  - destruct (response_json response) as [data | e]; [| discriminate].
    destruct (CardApp.normalize data) as [[found |] | e] eqn:Hnorm; cbn [returned];
      [| discriminate | discriminate].
    intros [= <-]. pose proof (CardApp_normalize_truthy _ _ Hnorm) as H.
    destruct found; [destruct H | exact H | exact H].
Qed.

Lemma CardApp_returns_usable_reference_witness :
  truthy (VStr "https://img/1.png") = true.
Proof.
  apply (CardApp_returns_usable_reference "key" "QUJD"
           (Resolved (ok_json (nested_url "https://img/1.png")))
           (Field (VStr "https://img/1.png"))).
  reflexivity.
Defined.

(** X21. The nested url comes first among the JSON shapes: when
    data.data[0].url is truthy the card application script returns it,
    whatever the b64_json, url and image fields of the same body hold. *)
Theorem CardApp_nested_url_first (apiKey base64Image : string) (r : Response)
    (props first : list (string * value)) (more : list value) :
  ok r = true -> CardApp.is_binary_image r = false ->
  json r = Some (VObj props) ->
  own props "data" = VArr (VObj first :: more) ->
  truthy (own first "url") = true ->
  returned (CardApp.generateStylizedImage apiKey base64Image (Resolved r))
    = Normal (Field (own first "url")) /\
  console (CardApp.generateStylizedImage apiKey base64Image (Resolved r)) = [].
Proof.
  intros Hok Hbin Hjson Hdata Hurl.
  unfold CardApp.generateStylizedImage, response_json.
  rewrite Hok, Hbin, Hjson. cbn [negb].
  assert (Hnorm : CardApp.normalize (VObj props) = Normal (Some (Field (own first "url")))).
  { unfold CardApp.normalize, CardApp.nested, and_then.
    cbn [get mbind completion_bind]. rewrite Hdata.
    cbn [truthy get0 get mbind completion_bind]. rewrite Hurl. reflexivity. }
  rewrite Hnorm. split; reflexivity.
Qed.

Lemma CardApp_nested_url_first_witness :
  returned (CardApp.generateStylizedImage "key" "QUJD"
    (Resolved (ok_json (VObj [("url", VStr "https://img/direct.png");
                              ("image", VStr "AAAA");
                              ("data", VArr [VObj [("b64_json", VStr "BBBB");
                                                   ("url", VStr "https://img/nested.png")]])]))))
  = Normal (Field (VStr "https://img/nested.png")).
Proof.
  destruct (CardApp_nested_url_first "key" "QUJD"
    (ok_json (VObj [("url", VStr "https://img/direct.png");
                    ("image", VStr "AAAA");
                    ("data", VArr [VObj [("b64_json", VStr "BBBB");
                                         ("url", VStr "https://img/nested.png")]])]))
    [("url", VStr "https://img/direct.png");
     ("image", VStr "AAAA");
     ("data", VArr [VObj [("b64_json", VStr "BBBB");
                          ("url", VStr "https://img/nested.png")]])]
    [("b64_json", VStr "BBBB"); ("url", VStr "https://img/nested.png")] [])
    as [H _]; [reflexivity .. | exact H].
Defined.

Lemma split_then (sep : ascii) (a b : string) :
  includes (String sep "") a = false ->
  split sep (a +:+ String sep b) = a :: split sep b.
Proof.
  induction a as [| c a IH]; intros Ha.
  - apply split_cons_sep.
  - cbn [includes] in Ha. rewrite startsWith_char in Ha.
    apply orb_false_elim in Ha as [Hc Ha]. rewrite Ascii.eqb_sym in Hc.
    rewrite str_app_cons.
    destruct (split_cons_other sep c (a +:+ String sep b) Hc) as (cur & more & Hsp & ->).
    rewrite (IH Ha) in Hsp. injection Hsp as <- <-. reflexivity.
Qed.

(** X22. Stripping the data-URI prefix: for an input [prefix,payload]
    with no comma in the prefix nor in the payload, script.js submits the
    payload; the card application script submits the payload too unless it
    is empty, in which case it submits the whole input. *)
Theorem base64Data_strips_prefix (prefix payload : string) :
  includes "," prefix = false -> includes "," payload = false ->
  ScriptJs.base64Data (prefix +:+ "," +:+ payload) = VStr payload /\
  CardApp.base64Data (prefix +:+ "," +:+ payload)
  = VStr (if String.eqb payload "" then prefix +:+ "," else payload).
Proof.
  intros Hprefix Hpayload.
  unfold ScriptJs.base64Data, CardApp.base64Data.
  change ("," +:+ payload) with (String comma payload).
  rewrite (split_then comma _ _ Hprefix), (split_without_separator comma _ Hpayload).
  cbn [at_index lookup list_lookup]. split; [reflexivity |].
  unfold or_else. cbn [truthy].
  destruct (String.eqb_spec payload "") as [-> | Hne]; reflexivity.
Qed.

Lemma base64Data_strips_prefix_witness :
  CardApp.base64Data "data:image/png;base64,QUJD" = VStr "QUJD".
Proof.
  destruct (base64Data_strips_prefix "data:image/png;base64" "QUJD") as [_ H];
    [reflexivity .. | exact H].
Defined.

(** X23. script.js never reports an unknown body: for every 2xx JSON
    response whose body is an object with none of url, data, images set
    (to a truthy value) it returns a falsy value, without an exception and
    without a line on the console. *)
Theorem ScriptJs_missing_fields_returns_falsy
    (apiKey base64Image : string) (r : Response) (props : list (string * value)) :
  ok r = true -> json r = Some (VObj props) ->
  truthy (own props "url") = false ->
  truthy (own props "data") = false ->
  truthy (own props "images") = false ->
  exists v,
    returned (ScriptJs.generateStylizedImage apiKey base64Image (Resolved r)) = Normal v /\
    truthy v = false /\
    console (ScriptJs.generateStylizedImage apiKey base64Image (Resolved r)) = [].
Proof.
  intros Hok Hjson Hurl Hdata Himages.
  exists (own props "images").
  unfold ScriptJs.generateStylizedImage, response_json. rewrite Hok, Hjson.
  cbn [negb returned console mbind completion_bind].
  unfold ScriptJs.pick_url, or_then, and_then.
  cbn [get mbind completion_bind]. rewrite Hurl.
  cbn [mbind completion_bind]. rewrite Hdata.
  cbn [mbind completion_bind]. rewrite Hdata.
  cbn [mbind completion_bind]. rewrite Himages.
  repeat split.
Qed.

Lemma ScriptJs_missing_fields_returns_falsy_witness :
  exists v,
    returned (ScriptJs.generateStylizedImage "key" "QUJD"
                (Resolved (ok_json (inline_image "AAAA")))) = Normal v /\
    truthy v = false /\
    console (ScriptJs.generateStylizedImage "key" "QUJD"
               (Resolved (ok_json (inline_image "AAAA")))) = [].
Proof.
  apply (ScriptJs_missing_fields_returns_falsy "key" "QUJD" (ok_json (inline_image "AAAA"))
           [("image", VStr "AAAA")]); reflexivity.
Defined.

(** ** The card pages: generateGreeting and createCard *)

Lemma trimEnd_idempotent (s : string) : trimEnd (trimEnd s) = trimEnd s.
Proof.
  induction s as [| c s IH]; [reflexivity |].
  cbn [trimEnd]. destruct (trimEnd s) as [| d t] eqn:Hs.
  - destruct (is_space c) eqn:Hc; [reflexivity |].
    cbn [trimEnd]. rewrite Hc. reflexivity.
  - cbn [trimEnd] in *. rewrite IH. reflexivity.
Qed.

Lemma trimStart_head (s : string) :
  trimStart s = "" \/ exists c t, trimStart s = String c t /\ is_space c = false.
Proof.
  induction s as [| c s IH]; [left; reflexivity |].
  cbn [trimStart]. destruct (is_space c) eqn:Hc; [exact IH |].
  right. exists c, s. split; [reflexivity | exact Hc].
Qed.

Lemma trimStart_trimEnd (c : ascii) (t : string) :
  is_space c = false -> trimStart (trimEnd (String c t)) = trimEnd (String c t).
Proof.
  intros Hc. cbn [trimEnd].
  destruct (trimEnd t); [rewrite Hc |]; cbn [trimStart]; rewrite Hc; reflexivity.
Qed.

Lemma trim_idempotent (s : string) : trim (trim s) = trim s.
Proof.
  unfold trim. destruct (trimStart_head s) as [-> | (c & t & -> & Hc)]; [reflexivity |].
  rewrite (trimStart_trimEnd _ _ Hc). apply trimEnd_idempotent.
Qed.

(** X24. A greeting that generateGreeting returns comes from a 2xx
    response whose body has a string at choices[0].message.content, and it
    is that string trimmed: it has no white space at either end (trimming
    it again changes nothing).  On any other status, body or content the
    function throws. *)
Theorem generateGreeting_is_trimmed (apiKey : string) (net : fetch_result) (greeting : string) :
  CardAppPage.generateGreeting apiKey net = Normal greeting ->
  trim greeting = greeting /\
  exists r data s,
    net = Resolved r /\ ok r = true /\ json r = Some data /\
    message_content data = Normal (VStr s) /\ greeting = trim s.
Proof.
  unfold CardAppPage.generateGreeting.
  destruct net as [| r]; [discriminate |].
  destruct (ok r) eqn:Hok; cbn [negb]; [| discriminate].
  unfold response_json. destruct (json r) as [data |] eqn:Hjson; [| discriminate].
  cbn [mbind completion_bind].
  destruct (message_content data) as [content | e] eqn:Hcontent; [| discriminate].
  cbn [mbind completion_bind].
  destruct content as [| | b | q | s | elems | props]; try discriminate.
  intros [= <-]. split; [apply trim_idempotent |].
  exists r, data, s. repeat split; assumption.
Qed.

Lemma generateGreeting_is_trimmed_witness :
  trim "Have a swell holiday!" = "Have a swell holiday!".
Proof.
  apply (generateGreeting_is_trimmed "key"
           (Resolved (response_of 200 []
              (VObj [("choices",
                      VArr [VObj [("message",
                                   VObj [("content", VStr "  Have a swell holiday! ")])]])])))
           "Have a swell holiday!").
  reflexivity.
Defined.

Section CardPages.

Variables (apiKeyInput userImageSrc : string).

Lemma CardApp_button_app (disabled : bool) (xs ys : list CardAppPage.ui_event) :
  CardAppPage.button_disabled disabled (xs ++ ys)
  = CardAppPage.button_disabled (CardAppPage.button_disabled disabled xs) ys.
Proof.
  revert disabled.
  induction xs as [| [] xs IH]; intros disabled; cbn; rewrite ?IH; reflexivity.
Qed.

(** X25. The card application page never leaves its button disabled:
    whatever the inputs and the answers of the two endpoints, and whether
    the image loads or fails to load, the button is enabled when
    createCard is over. *)
Theorem CardApp_createCard_reenables_button
    (greetingNet imageNet : fetch_result) (imageLoads : bool) :
  CardAppPage.button_disabled false
    (CardAppPage.createCard apiKeyInput userImageSrc greetingNet imageNet imageLoads)
  = false.
Proof.
  unfold CardAppPage.createCard.
  destruct (String.eqb (trim apiKeyInput) ""); [reflexivity |].
  destruct (String.eqb userImageSrc ""); [reflexivity |].
  destruct (CardAppPage.try_block _ _ _ _ _) as [evs [error |]];
    cbn [CardAppPage.button_disabled]; rewrite CardApp_button_app; reflexivity.
Qed.

Lemma CardApp_requests_app (xs ys : list CardAppPage.ui_event) :
  CardAppPage.requests (xs ++ ys) = CardAppPage.requests xs ++ CardAppPage.requests ys.
Proof.
  induction xs as [| [] xs IH]; cbn; rewrite ?IH; reflexivity.
Qed.

Lemma CardApp_requests_console (data : list value) :
  CardAppPage.requests (map CardAppPage.UnexpectedImageResponse data) = [].
Proof. induction data as [| d data IH]; [reflexivity | exact IH]. Qed.

(** X26. The requests the card application page sends: none when the key
    is blank or no image was chosen; otherwise the greeting request, and
    the image request after it only if the greeting came back; the image
    request carries the stripped image data. *)
Theorem CardApp_createCard_requests
    (greetingNet imageNet : fetch_result) (imageLoads : bool) :
  CardAppPage.requests
    (CardAppPage.createCard apiKeyInput userImageSrc greetingNet imageNet imageLoads)
  = if String.eqb (trim apiKeyInput) "" || String.eqb userImageSrc "" then []
    else
      CardAppPage.GreetingRequest (trim apiKeyInput) ::
      match CardAppPage.generateGreeting (trim apiKeyInput) greetingNet with
      | Normal _ =>
          [CardAppPage.ImageRequest
             [("image", CardApp.base64Data userImageSrc); ("prompt", VStr CardApp.prompt)]]
      | Throw _ => []
      end.
Proof.
  unfold CardAppPage.createCard.
  destruct (String.eqb (trim apiKeyInput) ""); [reflexivity |].
  destruct (String.eqb userImageSrc ""); [reflexivity |]. cbn [orb].
  unfold CardAppPage.try_block.
  destruct (CardAppPage.generateGreeting (trim apiKeyInput) greetingNet) as [greetingText | e].
  - assert (Hsub : submitted (CardApp.generateStylizedImage (trim apiKeyInput)
                                userImageSrc imageNet)
                   = [("image", CardApp.base64Data userImageSrc);
                      ("prompt", VStr CardApp.prompt)]).
    { unfold CardApp.generateStylizedImage.
      destruct imageNet as [| response]; [reflexivity |].
      destruct (negb (ok response)); [reflexivity |].
      destruct (CardApp.is_binary_image response); [reflexivity |].
      destruct (response_json response) as [data |]; [| reflexivity].
      destruct (CardApp.normalize data) as [[ref |] |]; reflexivity. }
    destruct (returned _) as [genImageUrl | e]; [destruct imageLoads |];
      cbn [CardAppPage.requests]; rewrite !CardApp_requests_app;
      cbn [CardAppPage.requests app]; rewrite ?CardApp_requests_app;
      cbn [CardAppPage.requests app]; rewrite ?CardApp_requests_console, Hsub; reflexivity.
  - reflexivity.
Qed.

End CardPages.

Section CardOutcomes.

Variables (apiKeyInput userImageSrc : string).

Lemma CardApp_drawn_app (xs ys : list CardAppPage.ui_event) :
  CardAppPage.drawn (xs ++ ys) = CardAppPage.drawn xs ++ CardAppPage.drawn ys.
Proof.
  induction xs as [| [] xs IH]; cbn; rewrite ?IH; reflexivity.
Qed.

Lemma CardApp_drawn_console (data : list value) :
  CardAppPage.drawn (map CardAppPage.UnexpectedImageResponse data) = [].
Proof. induction data as [| d data IH]; [reflexivity | exact IH]. Qed.

(** X27. The card application page draws the card exactly when
    everything went well: both inputs present, the greeting returned, the
    image call returned a reference and the image loaded; it then draws
    once, with that greeting.  In every other case nothing is drawn. *)
Theorem CardApp_createCard_draws
    (greetingNet imageNet : fetch_result) (imageLoads : bool) :
  CardAppPage.drawn
    (CardAppPage.createCard apiKeyInput userImageSrc greetingNet imageNet imageLoads)
  = if String.eqb (trim apiKeyInput) "" || String.eqb userImageSrc "" then []
    else
      match CardAppPage.generateGreeting (trim apiKeyInput) greetingNet,
            returned (CardApp.generateStylizedImage (trim apiKeyInput) userImageSrc imageNet)
      with
      | Normal greetingText, Normal _ => if imageLoads then [greetingText] else []
      | _, _ => []
      end.
Proof.
  unfold CardAppPage.createCard.
  destruct (String.eqb (trim apiKeyInput) ""); [reflexivity |].
  destruct (String.eqb userImageSrc ""); [reflexivity |]. cbn [orb].
  unfold CardAppPage.try_block.
  destruct (CardAppPage.generateGreeting (trim apiKeyInput) greetingNet) as [greetingText | e];
    [| reflexivity].
  destruct (returned _) as [genImageUrl | e]; [destruct imageLoads |];
    cbn [CardAppPage.drawn]; rewrite !CardApp_drawn_app;
    cbn [CardAppPage.drawn app]; rewrite ?CardApp_drawn_app;
    cbn [CardAppPage.drawn app]; rewrite ?CardApp_drawn_console; reflexivity.
Qed.

(** X28. The script.js page can get stuck: its button is still disabled
    after createCard exactly when both inputs were present, the image call
    returned (a URL, or undefined for an unknown body) and the load event
    of the image never fires.  Only an exception or a successful load
    enables it again. *)
Theorem ScriptJs_createCard_button (imageNet : fetch_result) (imageLoads : bool) :
  ScriptJsPage.button_disabled false
    (ScriptJsPage.createCard apiKeyInput userImageSrc imageNet imageLoads)
  = if String.eqb (trim apiKeyInput) "" || String.eqb userImageSrc "" then false
    else
      match returned (ScriptJs.generateStylizedImage (trim apiKeyInput) userImageSrc imageNet)
      with
      | Normal _ => negb imageLoads
      | Throw _ => false
      end.
Proof.
  unfold ScriptJsPage.createCard.
  destruct (String.eqb (trim apiKeyInput) ""); [reflexivity |].
  destruct (String.eqb userImageSrc ""); [reflexivity |]. cbn [orb].
  destruct (returned _) as [genImageUrl | e]; [destruct imageLoads |]; reflexivity.
Qed.

End CardOutcomes.

(** ** VeniceOrchestrator *)

Section Orchestrator.

Variables (prompt : string) (net : string -> fetch_result).

Lemma first_rejection_none (results : list (completion value)) (order : list nat) :
  Forall (fun r => exists v, r = Normal v) results ->
  first_rejection results order = None.
Proof.
  intros Hall. induction order as [| i order IH]; [reflexivity |].
  cbn [first_rejection]. destruct (results !! i) as [r |] eqn:Hi; [| exact IH].
  destruct (proj1 (Forall_lookup _ _) Hall i r Hi) as [v ->]. exact IH.
Qed.

Lemma first_rejection_some (results : list (completion value)) (order : list nat)
    (i : nat) (e : error) :
  i ∈ order -> results !! i = Some (Throw e) ->
  exists j e', j ∈ order /\ results !! j = Some (Throw e')
               /\ first_rejection results order = Some e'.
Proof.
  intros Hin Hi. induction order as [| k order IH]; [apply elem_of_nil in Hin; destruct Hin |].
  cbn [first_rejection].
  destruct (results !! k) as [[v | e'] |] eqn:Hk.
  - apply elem_of_cons in Hin as [-> | Hin]; [congruence |].
    destruct (IH Hin) as (j & e' & Hj & Hr & Hf).
    exists j, e'. split; [apply elem_of_cons; right; exact Hj | split; assumption].
  - exists k, e'. split; [apply elem_of_cons; left; reflexivity | split; [exact Hk | reflexivity]].
  - apply elem_of_cons in Hin as [-> | Hin]; [congruence |].
    destruct (IH Hin) as (j & e' & Hj & Hr & Hf).
    exists j, e'. split; [apply elem_of_cons; right; exact Hj | split; assumption].
Qed.

(** X29. When the three requests of analyzeWithMultipleModels all
    succeed, each model is paired with its own answer, in the order
    venice-uncensored, llama-3.3-70b, deepseek-v3, whatever the order in
    which the three responses arrive. *)
Theorem analyzeWithMultipleModels_pairs_by_index (order : list nat) (v1 v2 v3 : value) :
  getResponse prompt "venice-uncensored" (net "venice-uncensored") = Normal v1 ->
  getResponse prompt "llama-3.3-70b" (net "llama-3.3-70b") = Normal v2 ->
  getResponse prompt "deepseek-v3" (net "deepseek-v3") = Normal v3 ->
  analyzeWithMultipleModels prompt net order
  = Some (Normal [{| analysis_model := "venice-uncensored"; analysis_response := v1 |};
                  {| analysis_model := "llama-3.3-70b"; analysis_response := v2 |};
                  {| analysis_model := "deepseek-v3"; analysis_response := v3 |}]).
Proof.
  intros H1 H2 H3. unfold analyzeWithMultipleModels, promise_all.
  cbn [map orchestrator_models]. rewrite H1, H2, H3.
  rewrite first_rejection_none by (repeat constructor; eauto).
  reflexivity.
Qed.

(** X30. analyzeWithMultipleModels is all or nothing: when the request
    for one of the three models fails, the call rejects with the error of
    one of the failed requests (the one that failed first) and the answers
    of the other models are lost. *)
Theorem analyzeWithMultipleModels_all_or_nothing
    (order : list nat) (i : nat) (model : string) (e : error) :
  orchestrator_models !! i = Some model -> i ∈ order ->
  getResponse prompt model (net model) = Throw e ->
  exists j failed e',
    orchestrator_models !! j = Some failed /\
    getResponse prompt failed (net failed) = Throw e' /\
    analyzeWithMultipleModels prompt net order = Some (Throw e').
Proof.
  intros Hmodel Hin Hfail.
  set (results := map (fun m => getResponse prompt m (net m)) orchestrator_models).
  assert (Hi : results !! i = Some (Throw e)).
  { unfold results. rewrite <- Hfail.
    change (map ?f ?l) with (f <$> l). rewrite list_lookup_fmap, Hmodel. reflexivity. }
  destruct (first_rejection_some results order i e Hin Hi) as (j & e' & _ & Hj & Hfirst).
  unfold results in Hj. change (map ?f ?l) with (f <$> l) in Hj.
  rewrite list_lookup_fmap in Hj.
  destruct (orchestrator_models !! j) as [failed |] eqn:Hfailed; [| discriminate].
  cbn in Hj. injection Hj as Hj.
  exists j, failed, e'. split; [exact Hfailed | split; [exact Hj |]].
  unfold analyzeWithMultipleModels, promise_all. fold results. rewrite Hfirst. reflexivity.
Qed.

End Orchestrator.

Lemma analyzeWithMultipleModels_pairs_by_index_witness :
  analyzeWithMultipleModels "Why is the sky blue?"
    (fun model => Resolved (response_of 200 []
       (VObj [("choices", VArr [VObj [("message", VObj [("content", VStr model)])]])])))
    [2%nat; 0%nat; 1%nat]
  = Some (Normal [{| analysis_model := "venice-uncensored";
                     analysis_response := VStr "venice-uncensored" |};
                  {| analysis_model := "llama-3.3-70b"; analysis_response := VStr "llama-3.3-70b" |};
                  {| analysis_model := "deepseek-v3"; analysis_response := VStr "deepseek-v3" |}]).
Proof.
  apply analyzeWithMultipleModels_pairs_by_index; reflexivity.
Defined.

Lemma analyzeWithMultipleModels_all_or_nothing_witness :
  exists j failed e',
    orchestrator_models !! j = Some failed /\
    getResponse "Why is the sky blue?" failed
      ((fun model => if String.eqb model "deepseek-v3" then Rejected else r200) failed)
    = Throw e' /\
    analyzeWithMultipleModels "Why is the sky blue?"
      (fun model => if String.eqb model "deepseek-v3" then Rejected else r200)
      [2%nat; 0%nat; 1%nat]
    = Some (Throw e').
Proof.
  apply (analyzeWithMultipleModels_all_or_nothing "Why is the sky blue?"
           (fun model => if String.eqb model "deepseek-v3" then Rejected else r200)
           [2%nat; 0%nat; 1%nat] 2%nat "deepseek-v3" FetchFailed).
  - reflexivity.
  - apply elem_of_cons. left. reflexivity.
  - reflexivity.
Defined.
